(** * golden: comparing text against golden files

    A shallow embedding of the Go package [golden] (files [build.go] and
    [golden.go]) together with the parts of the Go standard library the
    package calls: [path.Clean], [path.Join], [filepath.Dir],
    [filepath.SplitList], [strings.TrimSuffix], [sort.Strings], [os.Stat],
    [ioutil.ReadFile], [ioutil.WriteFile] and [difflib.SplitLines].

    Conventions.
    - Go strings are byte strings: [string] with [ascii] as the byte.
    - The operating system is Unix: the path separator is [/] and the
      list separator of GOPATH is [:].
    - A Go result pair [(string, error)] is a pair [string * option error];
      [None] is the [nil] error.
    - The two process globals the package reads ([build.Default.GOPATH] and
      the flag [*updateGolden]) and the file system live in a [World]; every
      file system call is recorded in the world's [trace].
    - [log.Fatal] ends the process: [Compare] yields an [outcome]. *)

From Stdlib Require Import Ascii Bool Arith Lia.
From Stdlib Require String.
From stdpp Require Import base option list strings gmap sorting.

(** ** Bytes and strings *)

Definition slash : ascii := "/"%char.
Definition dot : ascii := "."%char.
Definition colon : ascii := ":"%char.
Definition newline : ascii := "010"%char.
Definition dquote : ascii := "034"%char.
Definition backslash : ascii := "092"%char.

Definition str1 (c : ascii) : string := String c EmptyString.

(** [strings.Join(elems, sep)] *)
Fixpoint strings_Join (elems : list string) (sep : string) : string :=
  match elems with
  | [] => ""
  | [e] => e
  | e :: rest => e +:+ sep +:+ strings_Join rest sep
  end.

(** [strings.Split(s, sep)] for a one-byte separator: the pieces between
    the separators; an empty [s] gives one empty piece. *)
Fixpoint strings_Split (s : string) (sep : ascii) : list string :=
  match s with
  | EmptyString => [""]
  | String c s' =>
      if Ascii.eqb c sep then "" :: strings_Split s' sep
      else match strings_Split s' sep with
           | h :: t => String c h :: t
           | [] => [str1 c]
           end
  end.

(** [strings.SplitAfter(s, sep)] for a one-byte separator: as [Split], but
    every piece keeps the separator that ended it. *)
Fixpoint strings_SplitAfter (s : string) (sep : ascii) : list string :=
  match s with
  | EmptyString => [""]
  | String c s' =>
      if Ascii.eqb c sep then str1 c :: strings_SplitAfter s' sep
      else match strings_SplitAfter s' sep with
           | h :: t => String c h :: t
           | [] => [str1 c]
           end
  end.

(** [strings.HasSuffix] and [strings.TrimSuffix] *)
Definition strings_HasSuffix (s suffix : string) : bool :=
  (String.length suffix <=? String.length s) &&
  String.eqb (String.substring (String.length s - String.length suffix)
                        (String.length suffix) s) suffix.

Definition strings_TrimSuffix (s suffix : string) : string :=
  if strings_HasSuffix s suffix
  then String.substring 0 (String.length s - String.length suffix) s
  else s.

(** ** Package path: [Clean] and [Join] *)

(** [lazybuf] of path.go: a buffer as long as the path, equal to the path
    until it is written, with a write index [w].  The lazy copy of the Go
    code is an optimisation that no caller observes; the buffer here is
    the logical array. *)
Record lazybuf := Lazybuf { lb_buf : list ascii; lb_w : nat }.

Definition lb_index (b : lazybuf) (i : nat) : ascii :=
  default zero (lb_buf b !! i).

Definition lb_append (b : lazybuf) (c : ascii) : lazybuf :=
  Lazybuf (<[lb_w b := c]> (lb_buf b)) (S (lb_w b)).

Definition lb_string (b : lazybuf) : string :=
  String.string_of_list_ascii (take (lb_w b) (lb_buf b)).

Definition byte_at (path : list ascii) (i : nat) : ascii :=
  default zero (path !! i).

(** [for out.w > dotdot && out.index(out.w) != '/' { out.w-- }] *)
Fixpoint clean_backtrack (fuel : nat) (out : lazybuf) (dotdot : nat) : lazybuf :=
  match fuel with
  | 0 => out
  | S fuel' =>
      if (dotdot <? lb_w out) && negb (Ascii.eqb (lb_index out (lb_w out)) slash)
      then clean_backtrack fuel' (Lazybuf (lb_buf out) (lb_w out - 1)) dotdot
      else out
  end.

(** [for ; r < n && path[r] != '/'; r++ { out.append(path[r]) }] *)
Fixpoint clean_copy (fuel : nat) (path : list ascii) (r : nat) (out : lazybuf)
  : nat * lazybuf :=
  match fuel with
  | 0 => (r, out)
  | S fuel' =>
      match path !! r with
      | Some c =>
          if Ascii.eqb c slash then (r, out)
          else clean_copy fuel' path (S r) (lb_append out c)
      | None => (r, out)
      end
  end.

(** The main loop [for r < n { switch { ... } }] of [Clean]; every turn
    advances [r], so [n] turns are enough. *)
Fixpoint clean_loop (fuel : nat) (path : list ascii) (rooted : bool)
    (r : nat) (out : lazybuf) (dotdot : nat) : lazybuf :=
  match fuel with
  | 0 => out
  | S fuel' =>
      let n := length path in
      if n <=? r then out
      else if Ascii.eqb (byte_at path r) slash then
        (* empty path element *)
        clean_loop fuel' path rooted (r + 1) out dotdot
      else if Ascii.eqb (byte_at path r) dot
              && ((r + 1 =? n) || Ascii.eqb (byte_at path (r + 1)) slash) then
        (* . element *)
        clean_loop fuel' path rooted (r + 1) out dotdot
      else if Ascii.eqb (byte_at path r) dot
              && Ascii.eqb (byte_at path (r + 1)) dot
              && ((r + 2 =? n) || Ascii.eqb (byte_at path (r + 2)) slash) then
        (* .. element: remove to last / *)
        if dotdot <? lb_w out then
          let out1 := Lazybuf (lb_buf out) (lb_w out - 1) in
          clean_loop fuel' path rooted (r + 2)
                     (clean_backtrack (lb_w out1) out1 dotdot) dotdot
        else if negb rooted then
          (* cannot backtrack, but not rooted, so append .. element *)
          let out1 := if 0 <? lb_w out then lb_append out slash else out in
          let out2 := lb_append (lb_append out1 dot) dot in
          clean_loop fuel' path rooted (r + 2) out2 (lb_w out2)
        else
          clean_loop fuel' path rooted (r + 2) out dotdot
      else
        (* real path element: add slash if needed, copy element *)
        let out1 :=
          if (rooted && negb (lb_w out =? 1)) || (negb rooted && negb (lb_w out =? 0))
          then lb_append out slash else out in
        let '(r', out2) := clean_copy (n - r) path r out1 in
        clean_loop fuel' path rooted r' out2 dotdot
  end.

(** [path.Clean] (on Unix also [filepath.Clean]) *)
Definition path_Clean (path : string) : string :=
  match path with
  | EmptyString => "."
  | String c _ =>
      let p := String.list_ascii_of_string path in
      let rooted := Ascii.eqb c slash in
      let out0 := Lazybuf p 0 in
      let '(out1, r, dotdot) :=
        if rooted then (lb_append out0 slash, 1, 1) else (out0, 0, 0) in
      let out := clean_loop (length p) p rooted r out1 dotdot in
      if lb_w out =? 0 then "." else lb_string out
  end.

(** [path.Join]: the elements from the first non-empty one on, joined by
    slashes and cleaned; the empty string when every element is empty. *)
Fixpoint path_Join (elem : list string) : string :=
  match elem with
  | [] => ""
  | e :: rest =>
      match e with
      | EmptyString => path_Join rest
      | String _ _ => path_Clean (strings_Join elem "/")
      end
  end.

(** ** Package filepath (Unix): [Dir] and [SplitList] *)

(** [i := len(path) - 1; for i >= 0 && path[i] != '/' { i-- }]; the result
    is [i + 1], the length of the prefix up to and with the last slash. *)
Fixpoint dir_prefix_len (path : list ascii) (k : nat) : nat :=
  match k with
  | 0 => 0
  | S i => if Ascii.eqb (byte_at path i) slash then S i else dir_prefix_len path i
  end.

Definition filepath_Dir (path : string) : string :=
  let p := String.list_ascii_of_string path in
  path_Clean (String.string_of_list_ascii (take (dir_prefix_len p (length p)) p)).

Definition filepath_SplitList (path : string) : list string :=
  match path with
  | EmptyString => []
  | String _ _ => strings_Split path colon
  end.

(** ** Package sort: the order of [sort.Strings] *)

(** Go compares strings byte by byte; [String.leb] is that order. *)
Definition string_le (s1 s2 : string) : Prop := String.leb s1 s2 = true.

#[global] Instance string_le_dec : RelDecision string_le :=
  fun s1 s2 => decide (String.leb s1 s2 = true).

(** [sort.Strings]: the result is the sorted permutation of its argument. *)
Definition sort_Strings (l : list string) : list string :=
  merge_sort string_le l.

(** ** Package fmt and strconv: the verbs the package uses *)

(** [%v] of a [[]string]: the elements between brackets, separated by
    spaces. *)
Definition fmt_v_strings (l : list string) : string :=
  "[" +:+ strings_Join l " " +:+ "]".

Definition hex_digit (n : nat) : ascii :=
  default zero (String.list_ascii_of_string "0123456789abcdef" !! n).

(** [strconv.Quote] on one byte below 0x80 *)
Definition quote_byte (c : ascii) : string :=
  let n := nat_of_ascii c in
  if Ascii.eqb c dquote || Ascii.eqb c backslash then String backslash (str1 c)
  else if (32 <=? n) && (n <=? 126) then str1 c
  else if n =? 7 then "\a"
  else if n =? 8 then "\b"
  else if n =? 12 then "\f"
  else if n =? 10 then "\n"
  else if n =? 13 then "\r"
  else if n =? 9 then "\t"
  else if n =? 11 then "\v"
  else "\x" +:+ String (hex_digit (n / 16)) (str1 (hex_digit (n mod 16))).

Fixpoint quote_bytes (s : string) : string :=
  match s with
  | EmptyString => ""
  | String c s' => quote_byte c +:+ quote_bytes s'
  end.

Definition is_ascii_string (s : string) : bool :=
  forallb (fun c => nat_of_ascii c <? 128) (String.list_ascii_of_string s).

(** ** Package os and ioutil: errors and the file system *)

Inductive Errno := ENOENT | ENOTDIR | EISDIR.

Definition Errno_Error (e : Errno) : string :=
  match e with
  | ENOENT => "no such file or directory"
  | ENOTDIR => "not a directory"
  | EISDIR => "is a directory"
  end.

(** The two kinds of Go [error] values the package meets: the ones it
    makes with [fmt.Errorf], which carry only their text, and the
    [*os.PathError] of a failed file system call. *)
Inductive error :=
  | errorString (s : string)
  | PathError (Op Path : string) (Err : Errno).

#[global] Instance Errno_eq_dec : EqDecision Errno.
Proof. solve_decision. Defined.

#[global] Instance error_eq_dec : EqDecision error.
Proof. solve_decision. Defined.

(** The method [Error()] *)
Definition error_Error (e : error) : string :=
  match e with
  | errorString s => s
  | PathError op path err => op +:+ " " +:+ path +:+ ": " +:+ Errno_Error err
  end.

(** [os.IsNotExist]: false on [nil] and on every error but ENOENT *)
Definition os_IsNotExist (err : option error) : bool :=
  match err with
  | Some (PathError _ _ ENOENT) => true
  | _ => false
  end.

(** A file system without symbolic links and without permissions: a finite
    map from path names to nodes.  The paths the package passes to the
    operating system are all results of [path.Join] or [filepath.Dir], so
    they are clean, and a node is looked up under its clean name. *)
Inductive node := File (data : string) | Dir.

#[global] Instance node_eq_dec : EqDecision node.
Proof. solve_decision. Defined.

(** The root and the working directory always exist. *)
Definition node_at (fs : gmap string node) (p : string) : option node :=
  if bool_decide (p = "/" ∨ p = ".") then Some Dir else fs !! p.

(** The directories a path goes through: its proper prefixes that end
    just before a slash, outermost first. *)
Fixpoint ancestors_from (pre rest : list ascii) : list string :=
  match rest with
  | [] => []
  | c :: rest' =>
      (if Ascii.eqb c slash && negb (bool_decide (pre = []))
       then [String.string_of_list_ascii pre] else [])
      ++ ancestors_from (pre ++ [c]) rest'
  end.

Definition ancestors (p : string) : list string :=
  ancestors_from [] (String.list_ascii_of_string p).

(** Walking down the directories: a missing one gives ENOENT, a regular
    file on the way gives ENOTDIR. *)
Fixpoint walk (fs : gmap string node) (dirs : list string) : option Errno :=
  match dirs with
  | [] => None
  | d :: rest =>
      match node_at fs d with
      | Some Dir => walk fs rest
      | Some (File _) => Some ENOTDIR
      | None => Some ENOENT
      end
  end.

Definition resolve (fs : gmap string node) (p : string) : Errno + node :=
  match walk fs (ancestors p) with
  | Some e => inl e
  | None =>
      match node_at fs p with
      | Some n => inr n
      | None => inl ENOENT
      end
  end.

Definition stat (fs : gmap string node) (name : string) : option error :=
  match resolve fs name with
  | inl e => Some (PathError "stat" name e)
  | inr _ => None
  end.

(** Reading opens the file and reads all of it; a directory can be opened
    but not read. *)
Definition read_file (fs : gmap string node) (name : string)
  : string * option error :=
  match resolve fs name with
  | inl e => ("", Some (PathError "open" name e))
  | inr Dir => ("", Some (PathError "read" name EISDIR))
  | inr (File data) => (data, None)
  end.

(** Writing opens with O_WRONLY|O_CREATE|O_TRUNC: the directories on the
    way must exist, the file is made when it is missing, and its contents
    become exactly [data]. *)
Definition write_file (fs : gmap string node) (name data : string)
  : gmap string node * option error :=
  match walk fs (ancestors name) with
  | Some e => (fs, Some (PathError "open" name e))
  | None =>
      match node_at fs name with
      | Some Dir => (fs, Some (PathError "open" name EISDIR))
      | _ => (<[name := File data]> fs, None)
      end
  end.

(** ** The world: process globals, file system, and the calls made *)

Inductive syscall :=
  | SysStat (name : string)
  | SysReadFile (name : string)
  | SysWriteFile (name data : string).

Record World := mkWorld {
  GOPATH : string;                 (* build.Default.GOPATH *)
  updateGolden : bool;             (* *updateGolden, the flag -update_golden *)
  files : gmap string node;
  trace : list syscall
}.

Definition M (A : Type) : Type := World -> A * World.

Definition ret {A} (a : A) : M A := fun w => (a, w).

Definition bind {A B} (m : M A) (k : A -> M B) : M B :=
  fun w => let '(a, w') := m w in k a w'.

Notation "x <-- m ;; k" := (bind m (fun x => k))
  (at level 100, m at next level, right associativity).

Definition log_call (c : syscall) (w : World) : World :=
  mkWorld (GOPATH w) (updateGolden w) (files w) (trace w ++ [c]).

Definition os_Stat (name : string) : M (option error) :=
  fun w => (stat (files w) name, log_call (SysStat name) w).

Definition ioutil_ReadFile (name : string) : M (string * option error) :=
  fun w => (read_file (files w) name, log_call (SysReadFile name) w).

Definition ioutil_WriteFile (name data : string) : M (option error) :=
  fun w =>
    let '(fs', err) := write_file (files w) name data in
    (err, mkWorld (GOPATH w) (updateGolden w) fs'
                  (trace w ++ [SysWriteFile name data])).

(** ** Package difflib *)

(** [difflib.SplitLines]: split after every newline, then add a newline to
    the last piece. *)
Fixpoint append_to_last (lines : list string) (s : string) : list string :=
  match lines with
  | [] => []
  | [l] => [l +:+ s]
  | l :: rest => l :: append_to_last rest s
  end.

Definition difflib_SplitLines (s : string) : list string :=
  append_to_last (strings_SplitAfter s newline) (str1 newline).

(** The struct [difflib.UnifiedDiff]; the fields [Compare] leaves out have
    Go's zero values. *)
Record UnifiedDiff := mkUnifiedDiff {
  ud_A : list string;
  ud_FromFile : string;
  ud_FromDate : string;
  ud_B : list string;
  ud_ToFile : string;
  ud_ToDate : string;
  ud_Eol : string;
  ud_Context : nat
}.

(** What [log.Fatal] leaves of a call: the process ends with a message. *)
Inductive outcome (A : Type) :=
  | Returned (a : A)
  | Fatal (msg : string).
Arguments Returned {A} a.
Arguments Fatal {A} msg.

(** ** The package golden *)

Section golden.

(** The two library functions that are not modelled in full.
    - [strconv.Quote], the verb [%q], on a string with a byte from 0x80 on:
      what it prints there hangs on UTF-8 decoding and on the Unicode
      tables.  On the other strings [strconv_Quote] below is the function.
    - [difflib.GetUnifiedDiffString], the diff library. *)
Variable strconv_Quote_multibyte : string -> string.
Variable difflib_GetUnifiedDiffString : UnifiedDiff -> string * option error.

Definition strconv_Quote (s : string) : string :=
  if is_ascii_string s
  then str1 dquote +:+ quote_bytes s +:+ str1 dquote
  else strconv_Quote_multibyte s.

(** *** build.go *)

(** The body of [for _, p := range goPaths] in [getFullPathForRead]: the
    path found, when the loop is left by [return fullPath, nil], and the
    value of [err]. *)
Fixpoint getFullPathForRead_range (relPath : string) (goPaths : list string)
    (err : option error) : M (option string * option error) :=
  match goPaths with
  | [] => ret (None, err)
  | p :: goPaths' =>
      let fullPath := path_Join [p; "src"; relPath] in
      err <-- os_Stat fullPath ;;
      match err with
      | None => ret (Some fullPath, None)
      | Some _ => getFullPathForRead_range relPath goPaths' err
      end
  end.

Definition getFullPathForRead (relPath : string) : M (string * option error) :=
  fun w =>
    let goPaths := filepath_SplitList (GOPATH w) in
    if length goPaths =? 0 then
      ret ("", Some (errorString "GOPATH is empty")) w
    else
      (found <-- getFullPathForRead_range relPath goPaths None ;;
       match found with
       | (Some fullPath, _) => ret (fullPath, None)
       | (None, err) =>
           if os_IsNotExist err then
             ret ("", Some (errorString (relPath +:+ ": file not found in GOPATH")))
           else ret ("", err)
       end) w.

Definition sortedKeys (m : gmap string bool) : list string :=
  sort_Strings (map_to_list m).*1.

(** The three maps [getFullPathForWrite] fills *)
Record write_maps := mkWriteMaps {
  existingFiles : gmap string bool;
  possibleDirectories : gmap string bool;
  filesWithExistingDir : gmap string bool
}.

(** The body of [for _, p := range goPaths] in [getFullPathForWrite] *)
Fixpoint getFullPathForWrite_range (relPath : string) (goPaths : list string)
    (m : write_maps) : M write_maps :=
  match goPaths with
  | [] => ret m
  | p :: goPaths' =>
      let fullPath := path_Join [p; "src"; relPath] in
      err <-- os_Stat fullPath ;;
      let existingFiles' :=
        match err with
        | None => <[fullPath := true]> (existingFiles m)
        | Some _ => existingFiles m
        end in
      let fullDir := filepath_Dir fullPath in
      let possibleDirectories' := <[fullDir := true]> (possibleDirectories m) in
      err <-- os_Stat fullDir ;;
      let filesWithExistingDir' :=
        match err with
        | None => <[fullPath := true]> (filesWithExistingDir m)
        | Some _ => filesWithExistingDir m
        end in
      getFullPathForWrite_range relPath goPaths'
        (mkWriteMaps existingFiles' possibleDirectories' filesWithExistingDir')
  end.

(** [for fullPath, _ := range m { return fullPath, nil }]: the first key
    the iteration meets, if there is one.  Go leaves the order of the
    iteration open; the package only iterates maps of one key. *)
Definition range_first (m : gmap string bool) : option string :=
  match map_to_list m with
  | (fullPath, _) :: _ => Some fullPath
  | [] => None
  end.

Definition getFullPathForWrite (relPath : string) : M (string * option error) :=
  fun w =>
    let goPaths := filepath_SplitList (GOPATH w) in
    if length goPaths =? 0 then
      ret ("", Some (errorString "GOPATH is empty")) w
    else if length goPaths =? 1 then
      (* If there is only a single GOPATH, just use it *)
      ret (path_Join [default "" (goPaths !! 0); "src"; relPath], None) w
    else
      (m <-- getFullPathForWrite_range relPath goPaths
               (mkWriteMaps ∅ ∅ ∅) ;;
       if 1 <? size (existingFiles m) then
         ret ("", Some (errorString
           ("there are multiple files in the GOPATH with the same relative path "
            +:+ strconv_Quote relPath +:+ ": "
            +:+ fmt_v_strings (sortedKeys (existingFiles m)))))
       else
       match (if size (existingFiles m) =? 1
              then range_first (existingFiles m) else None) with
       | Some fullPath => ret (fullPath, None)
       | None =>
       if 1 <? size (filesWithExistingDir m) then
         ret ("", Some (errorString
           ("there are multiple suitable directories in the GOPATH: "
            +:+ fmt_v_strings (sortedKeys (filesWithExistingDir m)))))
       else
       match (if size (filesWithExistingDir m) =? 1
              then range_first (filesWithExistingDir m) else None) with
       | Some fullPath => ret (fullPath, None)
       | None =>
         ret ("", Some (errorString
           ("none of these directories in the GOPATH exist: "
            +:+ fmt_v_strings (sortedKeys (possibleDirectories m)))))
       end
       end) w.

Definition shouldUpdateGolden : M bool :=
  fun w => (updateGolden w, w).

Definition formatUpdateCommand : string := "go test -update_golden".

(** [enableUpdateGoldenForTest]: the two globals are set, and the
    function returned sets them back to the values they had at the call. *)
Definition enableUpdateGoldenForTest (tmpdir : string) : M (M unit) :=
  fun w =>
    let originalGoPath := GOPATH w in
    let originalUpdateGolden := updateGolden w in
    let w := mkWorld tmpdir (updateGolden w) (files w) (trace w) in
    let w := mkWorld (GOPATH w) true (files w) (trace w) in
    let restoreFunc : M unit :=
      fun w => (tt, mkWorld originalGoPath originalUpdateGolden
                            (files w) (trace w)) in
    (restoreFunc, w).

(** *** golden.go *)

Definition Compare (actual goldenFile : string) : World -> outcome string * World :=
  fun w =>
    let '(update, w) := shouldUpdateGolden w in
    if update then
      let '((fullPath, err), w) := getFullPathForWrite goldenFile w in
      match err with
      | Some e =>
          (Fatal ("Error while getting path for writes: " +:+ error_Error e), w)
      | None =>
          let '(err, w) := ioutil_WriteFile fullPath actual w in
          match err with
          | Some e => (Fatal (error_Error e), w)
          | None => (Returned "", w)
          end
      end
    else
      let '((fullPath, err), w) := getFullPathForRead goldenFile w in
      match err with
      | Some e =>
          (Fatal ("Error while getting path for reads: " +:+ error_Error e), w)
      | None =>
          let '((expected, err), w) := ioutil_ReadFile fullPath w in
          match err with
          | Some e =>
              (Fatal ("Error while reading golden file: " +:+ error_Error e), w)
          | None =>
              if String.eqb expected actual then (Returned "", w)
              else
                let udiff :=
                  {| ud_A := difflib_SplitLines expected;
                     ud_FromFile := goldenFile;
                     ud_FromDate := "";
                     ud_B := difflib_SplitLines actual;
                     ud_ToFile := strings_TrimSuffix goldenFile ".golden" +:+ ".actual";
                     ud_ToDate := "";
                     ud_Eol := "";
                     ud_Context := 3 |} in
                let '(diffstr, err) := difflib_GetUnifiedDiffString udiff in
                match err with
                | Some e =>
                    (Fatal ("Error computing unified diff with golden file: "
                            +:+ error_Error e), w)
                | None =>
                    (Returned
                       ("Actual data differs from golden data; run "
                        +:+ strconv_Quote formatUpdateCommand
                        +:+ " to update" +:+ str1 newline +:+ diffstr), w)
                end
          end
      end.


(** ** Vocabulary of the statements *)

(** The candidate of a root: [path.Join(root, "src", relPath)]. *)
Definition candidate (relPath root : string) : string :=
  path_Join [root; "src"; relPath].

(** The root list of a world, and its candidates in root order. *)
Definition roots (w : World) : list string := filepath_SplitList (GOPATH w).

Definition candidates (w : World) (relPath : string) : list string :=
  candidate relPath <$> roots w.

(** A path exists when [os.Stat] gives no error for it. *)
Definition exists_in (fs : gmap string node) (p : string) : Prop :=
  stat fs p = None.

#[global] Instance exists_in_dec (fs : gmap string node) (p : string) :
  Decision (exists_in fs p).
Proof. unfold exists_in. apply _. Defined.

(** The first candidate that exists, in root order: the candidate of the
    root at index [i] exists, and none of an earlier root does. *)
Definition first_existing (w : World) (relPath : string) (i : nat) (p : string)
  : Prop :=
  candidates w relPath !! i = Some p ∧
  exists_in (files w) p ∧
  ∀ j q, j < i → candidates w relPath !! j = Some q → ¬ exists_in (files w) q.

(** [l] lists the strings with property [P]: each once, in the order of
    [sort.Strings]. *)
Definition lists_sorted (P : string -> Prop) (l : list string) : Prop :=
  Sorted string_le l ∧ NoDup l ∧ ∀ x, x ∈ l ↔ P x.



(** The calls of [ioutil.ReadFile] in a trace *)
Definition is_read (c : syscall) : Prop :=
  match c with
  | SysReadFile _ => True
  | _ => False
  end.

(** The calls of [ioutil.WriteFile] in a trace *)
Definition is_write (c : syscall) : Prop :=
  match c with
  | SysWriteFile _ _ => True
  | _ => False
  end.

(** The error values of the resolver, by what they say. *)
Definition ConfigError : error := errorString "GOPATH is empty".

Definition NotFoundError (relPath : string) : error :=
  errorString (relPath +:+ ": file not found in GOPATH").

Definition AmbiguousExistingFileError (quoted : string) (paths : list string)
  : error :=
  errorString
    ("there are multiple files in the GOPATH with the same relative path "
     +:+ quoted +:+ ": " +:+ fmt_v_strings paths).

Definition AmbiguousDirectoryError (paths : list string) : error :=
  errorString ("there are multiple suitable directories in the GOPATH: "
               +:+ fmt_v_strings paths).

Definition NoSuitableDirectoryError (dirs : list string) : error :=
  errorString ("none of these directories in the GOPATH exist: "
               +:+ fmt_v_strings dirs).

(** The first line of a mismatch report. *)
Definition report_header : string :=
  "Actual data differs from golden data; run "
  +:+ str1 dquote +:+ formatUpdateCommand +:+ str1 dquote +:+ " to update".

(** ** Worlds of the package's tests *)

(** [os.MkdirAll] and the writing of a fake file, as build_test.go does
    them to set up a temporary directory. *)
Definition mkdir_all (fs : gmap string node) (p : string) : gmap string node :=
  foldr (fun d fs => <[d := Dir]> fs) fs (ancestors p ++ [p]).

Definition add_file (fs : gmap string node) (p data : string) : gmap string node :=
  <[p := File data]> (mkdir_all fs (filepath_Dir p)).

(** The third environment of [TestGetFullPath], with [/t] as temporary
    directory: two roots, files a.txt and d.txt under the first, b.txt and
    d.txt under the second, a directory baz under the first and bar under
    the second. *)
Definition two_roots_fs : gmap string node :=
  mkdir_all (mkdir_all (add_file (add_file (add_file (add_file ∅
    "/t/p1/src/github.com/google/foobar/a.txt" "")
    "/t/p2/src/github.com/google/foobar/b.txt" "")
    "/t/p1/src/github.com/google/foobar/d.txt" "")
    "/t/p2/src/github.com/google/foobar/d.txt" "")
    "/t/p1/src/github.com/google/baz")
    "/t/p2/src/github.com/google/bar".

Definition two_roots_world (update : bool) : World :=
  mkWorld "/t/p1:/t/p2" update two_roots_fs [].

(** The second environment: one root with the file hi.txt. *)
Definition one_root_fs : gmap string node :=
  add_file ∅ "/t/p1/src/github.com/google/foobar/hi.txt" "".

Definition one_root_world (update : bool) : World :=
  mkWorld "/t/p1" update one_root_fs [].

(** The first environment: an empty GOPATH. *)
Definition no_root_world (update : bool) : World :=
  mkWorld "" update ∅ [].

(** The world of [TestCompareEquals]: the haiku under one root. *)
Definition haiku : string :=
  "It reads many bits" +:+ str1 newline +:+
  "It exchanges many bits" +:+ str1 newline +:+
  "It writes many bits" +:+ str1 newline.

Definition haiku_world (update : bool) : World :=
  mkWorld "/go" update
    (add_file ∅ "/go/src/github.com/google/golden/testdata/haiku.txt.golden" haiku)
    [].

(** The haiku with "many" replaced by "twenty" in its second line, as in
    [TestCompareNotEquals]. *)
Definition haiku_twenty : string :=
  "It reads many bits" +:+ str1 newline +:+
  "It exchanges twenty bits" +:+ str1 newline +:+
  "It writes many bits" +:+ str1 newline.

Definition haiku_golden : string :=
  "github.com/google/golden/testdata/haiku.txt.golden".

(** A golden file that is not there yet, and the contents of
    [TestUpdateGolden]. *)
Definition new_golden : string := "github.com/google/foobar/new.txt".
Definition new_contents : string := "This is the new contents".

(** A world in which a regular file stands where a candidate needs a
    directory: the golden path goes through a.txt. *)
Definition through_file_world : World :=
  mkWorld "/t/p1" false
    (add_file ∅ "/t/p1/src/github.com/google/foobar/a.txt" "") [].

(** A golden path through the regular file a.txt. *)
Definition through_file_golden : string :=
  "github.com/google/foobar/a.txt/haiku.txt.golden".

(** The first map of [TestSortedKeys]. *)
Definition test_keys : gmap string bool :=
  <["a" := true]> (<["c" := true]> (<["b" := true]> ∅)).

(** The world of two roots with its roots in the other order. *)
Definition two_roots_swapped_world (update : bool) : World :=
  mkWorld "/t/p2:/t/p1" update two_roots_fs [].

(** Stand-ins for the two library functions, for running the examples:
    a quoting that only adds the quotes, and a diff that prints its two
    labels and its context. *)
Definition plain_Quote (s : string) : string :=
  str1 dquote +:+ s +:+ str1 dquote.

Definition labels_diff (u : UnifiedDiff) : string * option error :=
  ("--- " +:+ ud_FromFile u +:+ str1 newline +:+
   "+++ " +:+ ud_ToFile u +:+ str1 newline, None).

(** ** The loops of [Clean] end

    The three loops of [Clean] are written with fuel.  The fuel
    [path_Clean] gives them is enough: with that much or more, the result
    is the same. *)

Lemma clean_backtrack_fuel (fuel : nat) :
  ∀ fuel' out dotdot,
    lb_w out ≤ fuel → lb_w out ≤ fuel' →
    clean_backtrack fuel out dotdot = clean_backtrack fuel' out dotdot.
Proof.
  induction fuel as [|fuel IH]; intros fuel' out dotdot Hfuel Hfuel'.
  - destruct fuel'; [done|]. cbn [clean_backtrack].
    by replace (dotdot <? lb_w out) with false by (symmetry; apply Nat.ltb_ge; lia).
  - destruct fuel' as [|fuel'].
    + cbn [clean_backtrack].
      by replace (dotdot <? lb_w out) with false by (symmetry; apply Nat.ltb_ge; lia).
    + cbn [clean_backtrack].
      destruct (dotdot <? lb_w out) eqn:Hw; [|done]. apply Nat.ltb_lt in Hw.
      destruct (negb _); [|done]. apply IH; simpl; lia.
Qed.

Lemma clean_copy_fuel (path : list ascii) (fuel : nat) :
  ∀ r out,
    length path - r ≤ fuel →
    clean_copy fuel path r out = clean_copy (length path - r) path r out.
Proof.
  induction fuel as [|fuel IH]; intros r out Hfuel.
  - replace (length path - r) with 0 by lia. done.
  - cbn [clean_copy]. destruct (path !! r) as [c|] eqn:Hr.
    + pose proof (lookup_lt_Some _ _ _ Hr) as Hlt.
      replace (length path - r) with (S (length path - S r)) by lia.
      cbn [clean_copy]. rewrite Hr.
      destruct (Ascii.eqb c slash); [done|]. apply IH. lia.
    + apply lookup_ge_None in Hr.
      replace (length path - r) with 0 by lia. done.
Qed.

Lemma clean_copy_progress (path : list ascii) (fuel : nat) :
  ∀ r out, r ≤ (clean_copy fuel path r out).1.
Proof.
  induction fuel as [|fuel IH]; intros r out; [done|].
  cbn [clean_copy]. destruct (path !! r) as [c|]; [|done].
  destruct (Ascii.eqb c slash); [done|]. specialize (IH (S r) (lb_append out c)). lia.
Qed.

Lemma clean_copy_step (path : list ascii) (fuel r : nat) (out : lazybuf) :
  r < length path → Ascii.eqb (byte_at path r) slash = false →
  r < (clean_copy (S fuel) path r out).1.
Proof.
  intros Hr Hslash. cbn [clean_copy]. unfold byte_at in Hslash.
  apply lookup_lt_is_Some_2 in Hr as [c Hc]. rewrite Hc in *. simpl in Hslash.
  rewrite Hslash. pose proof (clean_copy_progress path fuel (S r) (lb_append out c)).
  lia.
Qed.

Lemma clean_loop_fuel (path : list ascii) (rooted : bool) (fuel : nat) :
  ∀ fuel' r out dotdot,
    length path - r ≤ fuel → length path - r ≤ fuel' →
    clean_loop fuel path rooted r out dotdot =
    clean_loop fuel' path rooted r out dotdot.
Proof.
  induction fuel as [|fuel IH]; intros fuel' r out dotdot Hfuel Hfuel'.
  - destruct fuel'; [done|]. cbn [clean_loop].
    by replace (length path <=? r) with true by (symmetry; apply Nat.leb_le; lia).
  - destruct fuel' as [|fuel'].
    + cbn [clean_loop].
      by replace (length path <=? r) with true by (symmetry; apply Nat.leb_le; lia).
    + cbn [clean_loop]. cbn zeta.
      destruct (length path <=? r) eqn:Hr; [done|]. apply Nat.leb_gt in Hr.
      destruct (Ascii.eqb (byte_at path r) slash) eqn:Hslash; [apply IH; lia|].
      destruct (_ && _); [apply IH; lia|].
      destruct (_ && _).
      { destruct (dotdot <? lb_w out); [apply IH; lia|].
        destruct (negb rooted); apply IH; lia. }
      replace (length path - r) with (S (length path - S r)) by lia.
      match goal with |- context [clean_copy ?f path r ?o] =>
        pose proof (clean_copy_step path (length path - S r) r o Hr Hslash) as Hstep;
        destruct (clean_copy f path r o) as [r' out2] end.
      cbn [fst] in Hstep. apply IH; lia.
Qed.

(** ** The order of strings and [sortedKeys] *)

Lemma ascii_compare_lt_trans (a b c : ascii) :
  Ascii.compare a b = Lt → Ascii.compare b c = Lt → Ascii.compare a c = Lt.
Proof.
  unfold Ascii.compare. rewrite !N.compare_lt_iff. apply N.lt_trans.
Qed.

Lemma string_compare_lt_trans (s1 : string) :
  ∀ s2 s3, String.compare s1 s2 = Lt → String.compare s2 s3 = Lt →
           String.compare s1 s3 = Lt.
Proof.
  induction s1 as [|a s1 IH]; intros [|b s2] [|c s3]; simpl; try done.
  destruct (Ascii.compare a b) eqn:Hab; try done;
    destruct (Ascii.compare b c) eqn:Hbc; try done; intros H12 H23.
  - apply Ascii.compare_eq_iff in Hab, Hbc. subst.
    assert (Ascii.compare c c = Eq) as ->; [|by eapply IH].
    unfold Ascii.compare. apply N.compare_refl.
  - apply Ascii.compare_eq_iff in Hab. subst. by rewrite Hbc.
  - apply Ascii.compare_eq_iff in Hbc. subst. by rewrite Hab.
  - by rewrite (ascii_compare_lt_trans a b c).
Qed.

#[global] Instance string_le_total : Total string_le.
Proof. intros s1 s2. apply String.leb_total. Qed.

#[global] Instance string_le_antisym : AntiSymm (=) string_le.
Proof. intros s1 s2. apply String.leb_antisym. Qed.

#[global] Instance string_le_trans : Transitive string_le.
Proof.
  intros s1 s2 s3. unfold string_le, String.leb.
  destruct (String.compare s1 s2) eqn:H12; try done;
    destruct (String.compare s2 s3) eqn:H23; try done; intros _ _.
  - apply String.compare_eq_iff in H12. subst. by rewrite H23.
  - apply String.compare_eq_iff in H12. subst. by rewrite H23.
  - apply String.compare_eq_iff in H23. subst. by rewrite H12.
  - by rewrite (string_compare_lt_trans s1 s2 s3).
Qed.

Lemma sortedKeys_Permutation (m : gmap string bool) :
  sortedKeys m ≡ₚ (map_to_list m).*1.
Proof. apply merge_sort_Permutation. Qed.

Lemma sortedKeys_Sorted (m : gmap string bool) : Sorted string_le (sortedKeys m).
Proof. apply (Sorted_merge_sort string_le). Qed.

Lemma sortedKeys_NoDup (m : gmap string bool) : NoDup (sortedKeys m).
Proof.
  rewrite sortedKeys_Permutation. apply NoDup_fst_map_to_list.
Qed.

Lemma sortedKeys_elem_of (m : gmap string bool) (k : string) :
  k ∈ sortedKeys m ↔ is_Some (m !! k).
Proof.
  rewrite sortedKeys_Permutation, list_elem_of_fmap. split.
  - intros [[k' v] [-> Hin]]. apply elem_of_map_to_list in Hin. by exists v.
  - intros [v Hv]. exists (k, v). split; [done|]. by apply elem_of_map_to_list.
Qed.

Lemma sortedKeys_length (m : gmap string bool) : length (sortedKeys m) = size m.
Proof.
  rewrite sortedKeys_Permutation, length_fmap. apply length_map_to_list.
Qed.

(** ** Reading: the loop of [getFullPathForRead] *)

#[global] Arguments path_Join : simpl never.
#[global] Arguments filepath_Dir : simpl never.
#[global] Arguments stat : simpl never.
#[global] Arguments filepath_SplitList : simpl never.

Lemma files_log_call (c : syscall) (w : World) : files (log_call c w) = files w.
Proof. done. Qed.

(** The loop changes nothing but the trace. *)
Lemma read_range_world (relPath : string) (goPaths : list string) :
  ∀ err w,
    let w' := (getFullPathForRead_range relPath goPaths err w).2 in
    files w' = files w ∧ GOPATH w' = GOPATH w ∧ updateGolden w' = updateGolden w.
Proof.
  induction goPaths as [|p goPaths IH]; intros err w; simpl; [done|].
  unfold bind, os_Stat.
  destruct (stat (files w) _); [|done].
  apply (IH _ (log_call _ w)).
Qed.

(** It leaves with the first candidate that exists. *)
Lemma read_range_first (relPath : string) (goPaths : list string) :
  ∀ err w i p,
    (candidate relPath <$> goPaths) !! i = Some p →
    exists_in (files w) p →
    (∀ j q, j < i → (candidate relPath <$> goPaths) !! j = Some q →
            ¬ exists_in (files w) q) →
    (getFullPathForRead_range relPath goPaths err w).1 = (Some p, None).
Proof.
  induction goPaths as [|r goPaths IH]; intros err w i p Hi Hp Hbefore;
    [done|].
  simpl. unfold bind, os_Stat. fold (candidate relPath r).
  destruct i as [|i]; simpl in Hi.
  - injection Hi as <-. unfold exists_in in Hp. by rewrite Hp.
  - destruct (stat (files w) (candidate relPath r)) eqn:Hr.
    + apply (IH _ (log_call _ w) i p Hi Hp).
      intros j q Hj Hq. apply (Hbefore (S j) q); [lia|done].
    + destruct (Hbefore 0 (candidate relPath r)); [lia|done|done].
Qed.

(** When it leaves with a path, the path is a candidate that exists. *)
Lemma read_range_sound (relPath : string) (goPaths : list string) :
  ∀ err w p e,
    (getFullPathForRead_range relPath goPaths err w).1 = (Some p, e) →
    p ∈ candidate relPath <$> goPaths ∧ exists_in (files w) p ∧ e = None.
Proof.
  induction goPaths as [|r goPaths IH]; intros err w p e; simpl; [done|].
  unfold bind, os_Stat. fold (candidate relPath r).
  destruct (stat (files w) (candidate relPath r)) eqn:Hr; simpl.
  - intros H. apply (IH _ (log_call _ w)) in H as (Hin & Hex & ->).
    split; [by right|done].
  - intros [= <- <-]. split; [by left|done].
Qed.

(** When no candidate exists it runs to its end, and [err] is the error of
    the last call of [os.Stat]. *)
Lemma read_range_none (relPath : string) (goPaths : list string) :
  ∀ err w,
    (∀ q, q ∈ candidate relPath <$> goPaths → ¬ exists_in (files w) q) →
    (getFullPathForRead_range relPath goPaths err w).1 =
      (None, match last (candidate relPath <$> goPaths) with
             | Some q => stat (files w) q
             | None => err
             end).
Proof.
  induction goPaths as [|r goPaths IH]; intros err w Hnone; [done|].
  assert (match last (candidate relPath <$> r :: goPaths) with
          | Some q => stat (files w) q
          | None => err
          end =
          match last (candidate relPath <$> goPaths) with
          | Some q => stat (files w) q
          | None => stat (files w) (candidate relPath r)
          end) as ->.
  { rewrite fmap_cons, last_cons. by destruct (last _). }
  cbn [getFullPathForRead_range]. unfold bind, os_Stat.
  fold (candidate relPath r).
  destruct (stat (files w) (candidate relPath r)) eqn:Hr.
  - rewrite (IH _ (log_call _ w)); [done|].
    intros q Hq. apply Hnone. by right.
  - destruct (Hnone (candidate relPath r)); [by left|done].
Qed.

Lemma roots_nonempty_length (w : World) :
  roots w ≠ [] → (length (filepath_SplitList (GOPATH w)) =? 0) = false.
Proof. unfold roots. destruct (filepath_SplitList _); [done|]. by intros _. Qed.

(** ** Writing: the loop of [getFullPathForWrite] *)

(** The world after the loop: only the trace has grown, by two calls of
    [os.Stat] for every root. *)
Lemma write_range_world (relPath : string) (goPaths : list string) :
  ∀ m w,
    let w' := (getFullPathForWrite_range relPath goPaths m w).2 in
    files w' = files w ∧ GOPATH w' = GOPATH w ∧ updateGolden w' = updateGolden w ∧
    trace w' = trace w ++
      flat_map (λ p, [SysStat (candidate relPath p);
                      SysStat (filepath_Dir (candidate relPath p))]) goPaths.
Proof.
  induction goPaths as [|p goPaths IH]; intros m w.
  - simpl. by rewrite app_nil_r.
  - cbn [getFullPathForWrite_range]. unfold bind, os_Stat.
    fold (candidate relPath p).
    match goal with |- context [getFullPathForWrite_range _ _ ?m' ?w'] =>
      destruct (IH m' w') as (Hf & Hg & Hu & Ht) end.
    cbn zeta. rewrite Hf, Hg, Hu, Ht. repeat split; try done.
    cbn [flat_map log_call trace]. by rewrite <-!app_assoc.
Qed.

Lemma is_Some_insert_unless (m : gmap string bool) (k : string)
    (err : option error) (x : string) :
  is_Some (match err with
           | None => <[k := true]> m
           | Some _ => m
           end !! x) ↔
  is_Some (m !! x) ∨ (x = k ∧ err = None).
Proof.
  destruct err as [e|].
  - split; [by left|]. by intros [?|[_ ?]].
  - rewrite lookup_insert_is_Some. destruct (decide (k = x)) as [->|Hne].
    + split; [by right|by left].
    + split; [intros [?|[_ ?]]; [done|by left]|].
      intros [?|[-> _]]; [by right|done].
Qed.

(** The maps after the loop: the keys of [existingFiles] are the
    candidates that exist, those of [filesWithExistingDir] the candidates
    whose directory exists, those of [possibleDirectories] the directories
    of all candidates. *)
Lemma write_range_maps (relPath : string) (goPaths : list string) :
  ∀ m w,
    let m' := (getFullPathForWrite_range relPath goPaths m w).1 in
    (∀ x, is_Some (existingFiles m' !! x) ↔
          is_Some (existingFiles m !! x) ∨
          (x ∈ candidate relPath <$> goPaths ∧ exists_in (files w) x)) ∧
    (∀ x, is_Some (filesWithExistingDir m' !! x) ↔
          is_Some (filesWithExistingDir m !! x) ∨
          (x ∈ candidate relPath <$> goPaths ∧
           exists_in (files w) (filepath_Dir x))) ∧
    (∀ d, is_Some (possibleDirectories m' !! d) ↔
          is_Some (possibleDirectories m !! d) ∨
          (∃ x, x ∈ candidate relPath <$> goPaths ∧ d = filepath_Dir x)).
Proof.
  induction goPaths as [|p goPaths IH]; intros m w.
  - simpl. repeat split; try (by left); intros [?|H]; try done.
    + destruct H as [H _]. by apply elem_of_nil in H.
    + destruct H as [H _]. by apply elem_of_nil in H.
    + destruct H as (x & H & _). by apply elem_of_nil in H.
  - cbn [getFullPathForWrite_range]. unfold bind, os_Stat.
    fold (candidate relPath p).
    match goal with |- context [getFullPathForWrite_range _ _ ?m' ?w'] =>
      destruct (IH m' w') as (HE & HD & HP) end.
    cbn zeta. rewrite fmap_cons.
    cbn [existingFiles filesWithExistingDir possibleDirectories] in HE, HD, HP.
    rewrite !files_log_call in HE, HD.
    unfold exists_in in *.
    split; [|split].
    + intros x. rewrite HE, is_Some_insert_unless, elem_of_cons.
      split.
      * intros [[?|[-> ?]]|[? ?]]; [by left|right; by split; [left|]|
                                    right; by split; [right|]].
      * intros [?|[[->|?] ?]]; [by left; left|by left; right|by right].
    + intros x. rewrite HD, is_Some_insert_unless, elem_of_cons.
      split.
      * intros [[?|[-> ?]]|[? ?]]; [by left|right; by split; [left|]|
                                    right; by split; [right|]].
      * intros [?|[[->|?] ?]]; [by left; left|by left; right|by right].
    + intros d. rewrite HP, lookup_insert_is_Some. split.
      * intros [[<-|[_ ?]]|(x & ? & ->)].
        -- right. exists (candidate relPath p). split; [by left|done].
        -- by left.
        -- right. exists x. split; [by right|done].
      * intros [?|(x & Hx & ->)].
        -- destruct (decide (filepath_Dir (candidate relPath p) = d));
             [by left; left|by left; right].
        -- apply elem_of_cons in Hx as [->|Hx]; [by left; left|].
           right. by exists x.
Qed.

Lemma sortedKeys_lists (m : gmap string bool) (P : string → Prop) :
  (∀ x, is_Some (m !! x) ↔ P x) → lists_sorted P (sortedKeys m).
Proof.
  intros HP. split; [apply sortedKeys_Sorted|]. split; [apply sortedKeys_NoDup|].
  intros x. by rewrite sortedKeys_elem_of.
Qed.

(** A map of one key is iterated in one way. *)
Lemma range_first_single (m : gmap string bool) (p : string) :
  sortedKeys m = [p] → range_first m = Some p.
Proof.
  intros Hp. pose proof (sortedKeys_Permutation m) as Hperm.
  rewrite Hp in Hperm. apply Permutation_singleton_l in Hperm.
  unfold range_first. destruct (map_to_list m) as [|[k v] [|??]]; try done.
  by injection Hperm as ->.
Qed.

(** *** The resolver for writes *)

(** With two roots or more, the outcome is decided by the sorted keys of
    the three maps the loop has filled. *)
Lemma getFullPathForWrite_multi (w : World) (relPath : string) :
  2 ≤ length (roots w) →
  ∃ m : write_maps,
    (∀ x, is_Some (existingFiles m !! x) ↔
          x ∈ candidates w relPath ∧ exists_in (files w) x) ∧
    (∀ x, is_Some (filesWithExistingDir m !! x) ↔
          x ∈ candidates w relPath ∧ exists_in (files w) (filepath_Dir x)) ∧
    (∀ d, is_Some (possibleDirectories m !! d) ↔
          ∃ x, x ∈ candidates w relPath ∧ d = filepath_Dir x) ∧
    (getFullPathForWrite relPath w).1 =
      match sortedKeys (existingFiles m) with
      | _ :: _ :: _ =>
          ("", Some (AmbiguousExistingFileError (strconv_Quote relPath)
                       (sortedKeys (existingFiles m))))
      | [p] => (p, None)
      | [] =>
          match sortedKeys (filesWithExistingDir m) with
          | _ :: _ :: _ =>
              ("", Some (AmbiguousDirectoryError
                           (sortedKeys (filesWithExistingDir m))))
          | [p] => (p, None)
          | [] => ("", Some (NoSuitableDirectoryError
                               (sortedKeys (possibleDirectories m))))
          end
      end.
Proof.
  intros Hlen. unfold candidates, getFullPathForWrite.
  unfold roots in *.
  destruct (filepath_SplitList (GOPATH w)) as [|r1 [|r2 gp]] eqn:Hgp;
    simpl in Hlen; try lia.
  cbn [length Nat.eqb]. unfold bind.
  pose proof (write_range_maps relPath (r1 :: r2 :: gp) (mkWriteMaps ∅ ∅ ∅) w)
    as (HE & HD & HP).
  destruct (getFullPathForWrite_range relPath (r1 :: r2 :: gp) _ w)
    as [m w'] eqn:Hrange.
  cbn [fst existingFiles filesWithExistingDir possibleDirectories] in HE, HD, HP.
  assert (∀ (x : string) (Q : Prop),
            is_Some ((∅ : gmap string bool) !! x) ∨ Q ↔ Q) as Hempty.
  { intros x Q. rewrite lookup_empty. split; [|by right].
    by intros [[? ?]|?]. }
  exists m.
  split; [intros x; by rewrite HE, Hempty|].
  split; [intros x; by rewrite HD, Hempty|].
  split; [intros x; by rewrite HP, Hempty|].
  rewrite <-!sortedKeys_length.
  unfold AmbiguousExistingFileError, AmbiguousDirectoryError,
    NoSuitableDirectoryError, ret.
  destruct (sortedKeys (existingFiles m)) as [|p [|q l]] eqn:HEs;
    cbn [length Nat.ltb Nat.leb Nat.eqb fst]; [|by rewrite (range_first_single _ p)|done].
  destruct (sortedKeys (filesWithExistingDir m)) as [|p [|q l]] eqn:HDs;
    cbn [length Nat.ltb Nat.leb Nat.eqb fst]; [done|by rewrite (range_first_single _ p)|done].
Qed.

(** A path the resolver for writes returns with two roots or more is a
    candidate, and no other candidate exists. *)
Lemma getFullPathForWrite_multi_path (w : World) (relPath p : string) :
  2 ≤ length (roots w) →
  (getFullPathForWrite relPath w).1 = (p, None) →
  p ∈ candidates w relPath ∧
  ∀ q, q ∈ candidates w relPath → exists_in (files w) q → q = p.
Proof.
  intros Hlen Hres.
  destruct (getFullPathForWrite_multi w relPath Hlen)
    as (m & HE & HD & _ & Heq).
  rewrite Heq in Hres. clear Heq.
  assert (∀ q, q ∈ candidates w relPath → exists_in (files w) q →
               q ∈ sortedKeys (existingFiles m)) as Hin.
  { intros q ? ?. apply sortedKeys_elem_of, HE. by split. }
  destruct (sortedKeys (existingFiles m)) as [|x [|??]] eqn:HEs; [| |done].
  - split; [|intros q Hq Hex; pose proof (Hin q Hq Hex) as Hnil;
              by apply elem_of_nil in Hnil].
    destruct (sortedKeys (filesWithExistingDir m)) as [|x [|??]] eqn:HDs;
      [done| |done].
    injection Hres as <-.
    assert (x ∈ sortedKeys (filesWithExistingDir m)) as Hx
        by (rewrite HDs; by left).
    by apply sortedKeys_elem_of, HD in Hx as [? _].
  - injection Hres as <-. split.
    + assert (x ∈ sortedKeys (existingFiles m)) as Hx by (rewrite HEs; by left).
      by apply sortedKeys_elem_of, HE in Hx as [? _].
    + intros q Hq Hex. by apply list_elem_of_singleton, Hin.
Qed.

(** The resolver for writes changes nothing but the trace, and calls
    nothing but [os.Stat]. *)
Lemma getFullPathForWrite_world (w : World) (relPath : string) :
  let w' := (getFullPathForWrite relPath w).2 in
  files w' = files w ∧ GOPATH w' = GOPATH w ∧ updateGolden w' = updateGolden w ∧
  ∃ calls, trace w' = trace w ++ calls ∧
           Forall (λ c, ∃ name, c = SysStat name) calls.
Proof.
  unfold getFullPathForWrite.
  assert (∃ calls, trace w = trace w ++ calls ∧
                   Forall (λ c, ∃ name, c = SysStat name) calls) as Hnil.
  { exists []. by rewrite app_nil_r. }
  destruct (length (filepath_SplitList (GOPATH w)) =? 0); [done|].
  destruct (length (filepath_SplitList (GOPATH w)) =? 1); [done|].
  unfold bind.
  pose proof (write_range_world relPath (filepath_SplitList (GOPATH w))
                (mkWriteMaps ∅ ∅ ∅) w) as (Hf & Hg & Hu & Ht).
  destruct (getFullPathForWrite_range _ _ _ w) as [m w'].
  cbn [snd] in Hf, Hg, Hu, Ht.
  assert (∃ calls, trace w' = trace w ++ calls ∧
                   Forall (λ c, ∃ name, c = SysStat name) calls) as Hcalls.
  { eexists. split; [exact Ht|]. clear.
    induction (filepath_SplitList (GOPATH w)) as [|p l IH]; simpl; [done|].
    repeat (constructor; [by eexists|]). done. }
  unfold ret.
  repeat match goal with
         | |- context [if ?b then _ else _] => destruct b
         | |- context [match ?o with Some _ => _ | None => _ end] => destruct o
         end; done.
Qed.

(** *** Statements on the resolvers *)

Lemma roots_cases (w : World) :
  roots w = [] ∨ (∃ root, roots w = [root]) ∨ 2 ≤ length (roots w).
Proof.
  destruct (roots w) as [|r1 [|r2 l]]; [by left|right; left; by exists r1|].
  right. right. simpl. lia.
Qed.

Lemma empty_roots_nil (w : World) (relPath : string) :
  roots w = [] →
  getFullPathForRead relPath w = (("", Some ConfigError), w) ∧
  getFullPathForWrite relPath w = (("", Some ConfigError), w).
Proof.
  unfold roots, getFullPathForRead, getFullPathForWrite. by intros ->.
Qed.

Lemma single_root_candidate (w : World) (relPath root : string) :
  roots w = [root] →
  getFullPathForWrite relPath w = ((candidate relPath root, None), w).
Proof.
  unfold roots, getFullPathForWrite. by intros ->.
Qed.

(** C1. With at least two roots, [getFullPathForWrite] decides in this
    order, on the candidates counted as distinct paths and with "exists"
    read as "[os.Stat] gives no error": more than one existing candidate is
    the ambiguous-existing-file error with all of them in sorted order;
    exactly one is returned; otherwise more than one candidate with an
    existing directory is the ambiguous-directory error with these
    candidates in sorted order; exactly one is returned; otherwise the
    error lists the directories of all candidates in sorted order. *)
Theorem getFullPathForWrite_decision_order (w : World) (relPath : string) :
  2 ≤ length (roots w) →
  ∃ existing withDir parents : list string,
    lists_sorted (λ x, x ∈ candidates w relPath ∧ exists_in (files w) x)
                 existing ∧
    lists_sorted (λ x, x ∈ candidates w relPath ∧
                       exists_in (files w) (filepath_Dir x)) withDir ∧
    lists_sorted (λ d, ∃ x, x ∈ candidates w relPath ∧ d = filepath_Dir x)
                 parents ∧
    (getFullPathForWrite relPath w).1 =
      match existing with
      | _ :: _ :: _ =>
          ("", Some (AmbiguousExistingFileError (strconv_Quote relPath) existing))
      | [p] => (p, None)
      | [] =>
          match withDir with
          | _ :: _ :: _ => ("", Some (AmbiguousDirectoryError withDir))
          | [p] => (p, None)
          | [] => ("", Some (NoSuitableDirectoryError parents))
          end
      end.
Proof.
  intros Hlen.
  destruct (getFullPathForWrite_multi w relPath Hlen)
    as (m & HE & HD & HP & Hresult).
  exists (sortedKeys (existingFiles m)), (sortedKeys (filesWithExistingDir m)),
         (sortedKeys (possibleDirectories m)).
  split; [by apply sortedKeys_lists|].
  split; [by apply sortedKeys_lists|].
  split; [by apply sortedKeys_lists|].
  exact Hresult.
Qed.

Lemma first_existing_find (w : World) (relPath q : string) :
  q ∈ candidates w relPath → exists_in (files w) q →
  ∃ i p, first_existing w relPath i p.
Proof.
  intros Hin Hq.
  destruct (list_find_elem_of (exists_in (files w)) _ q Hin Hq) as [[i p] Hfind].
  apply list_find_Some in Hfind as (Hi & Hp & Hbefore).
  exists i, p. split; [done|]. split; [done|].
  intros j y Hj Hy. by apply (Hbefore j y).
Qed.

Lemma getFullPathForRead_first (w : World) (relPath : string) (i : nat) (p : string) :
  first_existing w relPath i p →
  (getFullPathForRead relPath w).1 = (p, None).
Proof.
  intros (Hi & Hp & Hbefore). unfold getFullPathForRead.
  assert (roots w ≠ []) as Hne.
  { unfold candidates in Hi. intros Hnil. by rewrite Hnil in Hi. }
  rewrite (roots_nonempty_length w Hne). unfold bind.
  pose proof (read_range_first relPath (filepath_SplitList (GOPATH w)) None w
                i p Hi Hp Hbefore) as Hrange.
  destruct (getFullPathForRead_range _ _ _ w) as [[found err] w'].
  by injection Hrange as -> ->.
Qed.

(** C2. [getFullPathForRead] goes through the roots in list order and
    returns the first candidate that exists; so whenever some candidate
    exists, also when two or more do, it returns that first match and no
    error. *)
Theorem getFullPathForRead_first_match (w : World) (relPath : string) :
  (∀ i p, first_existing w relPath i p →
          (getFullPathForRead relPath w).1 = (p, None)) ∧
  (∀ q, q ∈ candidates w relPath → exists_in (files w) q →
        ∃ i p, first_existing w relPath i p ∧
               (getFullPathForRead relPath w).1 = (p, None)).
Proof.
  split; [apply getFullPathForRead_first|].
  intros q Hin Hq. destruct (first_existing_find w relPath q Hin Hq) as (i & p & H).
  exists i, p. split; [done|]. by eapply getFullPathForRead_first.
Qed.

(** C6. With exactly one root [getFullPathForWrite] returns the candidate
    of that root whatever the file system holds, and leaves the world as
    it was: the trace has no call of [os.Stat] or of anything else. *)
Theorem getFullPathForWrite_single_root (w : World) (relPath root : string) :
  roots w = [root] →
  getFullPathForWrite relPath w = ((candidate relPath root, None), w).
Proof.
  unfold roots, getFullPathForWrite. intros Hroots. rewrite Hroots.
  reflexivity.
Qed.

(** C7. With an empty root list both resolvers fail with the error
    "GOPATH is empty" and return the empty path. *)
Theorem empty_roots_config_error (w : World) (relPath : string) :
  roots w = [] →
  getFullPathForRead relPath w = (("", Some ConfigError), w) ∧
  getFullPathForWrite relPath w = (("", Some ConfigError), w).
Proof.
  unfold roots, getFullPathForRead, getFullPathForWrite. intros Hroots.
  rewrite Hroots. split; reflexivity.
Qed.

(** C8, amended. With a non-empty root list of which no candidate
    exists, [getFullPathForRead] returns the empty path and an error: the
    not-found error that names the logical path when the error of
    [os.Stat] for the last root is a not-exist error, and that error of
    [os.Stat] itself when it is another one. *)
Theorem getFullPathForRead_no_candidate (w : World) (relPath : string) :
  roots w ≠ [] →
  (∀ q, q ∈ candidates w relPath → ¬ exists_in (files w) q) →
  ∃ q e, last (candidates w relPath) = Some q ∧
         stat (files w) q = Some e ∧
         (getFullPathForRead relPath w).1 =
           ("", Some (if os_IsNotExist (Some e) then NotFoundError relPath else e)).
Proof.
  intros Hne Hnone. unfold getFullPathForRead.
  rewrite (roots_nonempty_length w Hne). unfold bind.
  pose proof (read_range_none relPath (filepath_SplitList (GOPATH w)) None w
                Hnone) as Hrange.
  destruct (getFullPathForRead_range _ _ _ w) as [[found err] w'].
  cbn [fst] in Hrange. injection Hrange as -> ->.
  fold (roots w). fold (candidates w relPath).
  destruct (last (candidates w relPath)) as [q|] eqn:Hlast.
  - pose proof (Hnone q) as Hq. unfold exists_in in Hq.
    destruct (stat (files w) q) as [e|] eqn:He.
    + exists q, e. split; [done|]. split; [done|]. unfold ret, NotFoundError.
      destruct (os_IsNotExist (Some e)); reflexivity.
    + destruct Hq; [|done]. apply list_elem_of_lookup.
      rewrite last_lookup in Hlast. eauto.
  - apply last_None in Hlast. unfold candidates in Hlast.
    by apply fmap_nil_inv in Hlast.
Qed.

Lemma read_range_end (relPath : string) (goPaths : list string) :
  ∀ err w e,
    (getFullPathForRead_range relPath goPaths err w).1 = (None, e) →
    (goPaths = [] ∧ e = err) ∨ is_Some e.
Proof.
  induction goPaths as [|r goPaths IH]; intros err w e.
  - intros [= <-]. by left.
  - cbn [getFullPathForRead_range]. unfold bind, os_Stat.
    destruct (stat (files w) _) as [e'|]; [|done].
    intros H. apply (IH _ (log_call _ w)) in H as [[_ ->]|H]; right; [by eexists|done].
Qed.

Lemma getFullPathForRead_sound (w : World) (relPath p : string) :
  (getFullPathForRead relPath w).1 = (p, None) →
  p ∈ candidates w relPath ∧ exists_in (files w) p.
Proof.
  unfold getFullPathForRead, candidates, roots.
  destruct (filepath_SplitList (GOPATH w)) as [|r goPaths] eqn:Hgp; [done|].
  cbn [length Nat.eqb]. unfold bind.
  pose proof (read_range_sound relPath (r :: goPaths) None w) as Hsound.
  pose proof (read_range_end relPath (r :: goPaths) None w) as Hend.
  destruct (getFullPathForRead_range _ _ _ w) as [[[found|] err] w'].
  - destruct (Hsound found err eq_refl) as (? & ? & _). by intros [= <-].
  - destruct (Hend err eq_refl) as [[? _]|[e ->]]; [done|].
    unfold ret. by destruct (os_IsNotExist (Some e)).
Qed.

Lemma getFullPathForWrite_sound (w : World) (relPath p : string) :
  (getFullPathForWrite relPath w).1 = (p, None) →
  p ∈ candidates w relPath.
Proof.
  destruct (roots_cases w) as [Hr|[[root Hr]|Hr]].
  - by rewrite (proj2 (empty_roots_nil w relPath Hr)).
  - rewrite (single_root_candidate w relPath root Hr). intros [= <-].
    unfold candidates. rewrite Hr. by left.
  - intros Hres. by apply (getFullPathForWrite_multi_path w relPath p Hr).
Qed.

(** C10. A path that [getFullPathForRead] or [getFullPathForWrite]
    returns without an error is [path.Join(root, "src", relPath)] for a
    root of the root list. *)
Theorem resolved_path_is_candidate (w : World) (relPath p : string) :
  (getFullPathForRead relPath w).1 = (p, None) ∨
  (getFullPathForWrite relPath w).1 = (p, None) →
  ∃ root, root ∈ filepath_SplitList (GOPATH w) ∧
          p = path_Join [root; "src"; relPath].
Proof.
  intros H.
  assert (p ∈ candidates w relPath) as Hin.
  { destruct H as [H|H]; [by apply getFullPathForRead_sound in H as [? _]|].
    by apply getFullPathForWrite_sound. }
  unfold candidates in Hin. apply list_elem_of_fmap in Hin as (root & -> & Hroot).
  by exists root.
Qed.

(** ** The file system under a write *)

Lemma node_at_insert_ne (fs : gmap string node) (p q : string) (n : node) :
  q ≠ p → node_at (<[p := n]> fs) q = node_at fs q.
Proof.
  intros Hne. unfold node_at. case_bool_decide; [done|].
  by rewrite lookup_insert_ne.
Qed.

Lemma node_at_insert_file (fs : gmap string node) (p data : string) :
  node_at fs p ≠ Some Dir →
  node_at (<[p := File data]> fs) p = Some (File data).
Proof.
  unfold node_at. case_bool_decide; [done|]. intros _.
  by rewrite lookup_insert_eq.
Qed.

(** A new regular file changes no walk that went through: a walk only
    goes through directories. *)
Lemma walk_insert_file (fs : gmap string node) (p data : string)
    (dirs : list string) :
  node_at fs p ≠ Some Dir →
  walk (<[p := File data]> fs) dirs = None ↔ walk fs dirs = None.
Proof.
  intros Hp. induction dirs as [|d dirs IH]; [done|]. simpl.
  destruct (decide (d = p)) as [->|Hne].
  - rewrite node_at_insert_file by done.
    destruct (node_at fs p) as [[|]|]; done.
  - rewrite node_at_insert_ne by done.
    destruct (node_at fs d) as [[|]|]; done.
Qed.

Lemma write_file_ok (fs fs' : gmap string node) (p data : string) :
  write_file fs p data = (fs', None) →
  fs' = <[p := File data]> fs ∧
  walk fs (ancestors p) = None ∧
  node_at fs p ≠ Some Dir.
Proof.
  unfold write_file. destruct (walk fs (ancestors p)); [done|].
  destruct (node_at fs p) as [[|]|]; [|done|]; by intros [= <-].
Qed.

Lemma write_file_failed (fs fs' : gmap string node) (p data : string) (e : error) :
  write_file fs p data = (fs', Some e) → fs' = fs.
Proof.
  unfold write_file. destruct (walk fs (ancestors p)); [by intros [= <-]|].
  destruct (node_at fs p) as [[|]|]; [done|by intros [= <-]|done].
Qed.

(** After a write the file exists and holds the data. *)
Lemma read_after_write (fs fs' : gmap string node) (p data : string) :
  write_file fs p data = (fs', None) →
  exists_in fs' p ∧ read_file fs' p = (data, None).
Proof.
  intros (-> & Hwalk & Hp)%write_file_ok.
  unfold exists_in, stat, read_file, resolve.
  rewrite (proj2 (walk_insert_file fs p data _ Hp) Hwalk).
  by rewrite node_at_insert_file.
Qed.

(** No other path comes into existence by a write. *)
Lemma exists_before_write (fs fs' : gmap string node) (p q data : string) :
  write_file fs p data = (fs', None) →
  q ≠ p → exists_in fs' q → exists_in fs q.
Proof.
  intros (-> & _ & Hp)%write_file_ok Hne.
  unfold exists_in, stat, resolve.
  destruct (walk (<[p := File data]> fs) (ancestors q)) eqn:Hw; [done|].
  apply walk_insert_file in Hw; [|done]. rewrite Hw.
  by rewrite node_at_insert_ne.
Qed.

(** ** [Compare] *)

Lemma getFullPathForRead_world (w : World) (relPath : string) :
  let w' := (getFullPathForRead relPath w).2 in
  files w' = files w ∧ GOPATH w' = GOPATH w ∧ updateGolden w' = updateGolden w.
Proof.
  unfold getFullPathForRead.
  destruct (length (filepath_SplitList (GOPATH w)) =? 0); [done|].
  unfold bind.
  pose proof (read_range_world relPath (filepath_SplitList (GOPATH w)) None w)
    as Hw.
  destruct (getFullPathForRead_range _ _ _ w) as [[[found|] err] w']; [done|].
  unfold ret. by destruct (os_IsNotExist err).
Qed.

(** [Compare] when the flag is set *)
Lemma Compare_update (actual goldenFile : string) (w : World) :
  updateGolden w = true →
  Compare actual goldenFile w =
    let '((fullPath, err), w1) := getFullPathForWrite goldenFile w in
    match err with
    | Some e =>
        (Fatal ("Error while getting path for writes: " +:+ error_Error e), w1)
    | None =>
        match write_file (files w1) fullPath actual with
        | (fs', Some e) =>
            (Fatal (error_Error e),
             mkWorld (GOPATH w1) (updateGolden w1) fs'
                     (trace w1 ++ [SysWriteFile fullPath actual]))
        | (fs', None) =>
            (Returned "",
             mkWorld (GOPATH w1) (updateGolden w1) fs'
                     (trace w1 ++ [SysWriteFile fullPath actual]))
        end
    end.
Proof.
  intros Hupdate. unfold Compare, shouldUpdateGolden. rewrite Hupdate.
  destruct (getFullPathForWrite goldenFile w) as [[fullPath [e|]] w1]; [done|].
  unfold ioutil_WriteFile.
  by destruct (write_file (files w1) fullPath actual) as [fs' [e|]].
Qed.

(** [Compare] when the flag is not set *)
Lemma Compare_read (actual goldenFile : string) (w : World) :
  updateGolden w = false →
  Compare actual goldenFile w =
    let '((fullPath, err), w1) := getFullPathForRead goldenFile w in
    match err with
    | Some e =>
        (Fatal ("Error while getting path for reads: " +:+ error_Error e), w1)
    | None =>
        let w2 := log_call (SysReadFile fullPath) w1 in
        match read_file (files w1) fullPath with
        | (_, Some e) =>
            (Fatal ("Error while reading golden file: " +:+ error_Error e), w2)
        | (expected, None) =>
            if String.eqb expected actual then (Returned "", w2)
            else
              match difflib_GetUnifiedDiffString
                      {| ud_A := difflib_SplitLines expected;
                         ud_FromFile := goldenFile;
                         ud_FromDate := "";
                         ud_B := difflib_SplitLines actual;
                         ud_ToFile :=
                           strings_TrimSuffix goldenFile ".golden" +:+ ".actual";
                         ud_ToDate := "";
                         ud_Eol := "";
                         ud_Context := 3 |} with
              | (_, Some e) =>
                  (Fatal ("Error computing unified diff with golden file: "
                          +:+ error_Error e), w2)
              | (diffstr, None) =>
                  (Returned (report_header +:+ str1 newline +:+ diffstr), w2)
              end
        end
    end.
Proof.
  intros Hupdate. unfold Compare, shouldUpdateGolden. rewrite Hupdate.
  destruct (getFullPathForRead goldenFile w) as [[fullPath [e|]] w1]; [done|].
  unfold ioutil_ReadFile.
  destruct (read_file (files w1) fullPath) as [expected [e|]]; [done|].
  destruct (String.eqb expected actual); [done|].
  by destruct (difflib_GetUnifiedDiffString _) as [diffstr [e|]].
Qed.

(** *** Suffixes *)

Lemma string_length_app (s t : string) :
  String.length (s +:+ t) = String.length s + String.length t.
Proof. induction s as [|c s IH]; simpl; [done|]. by rewrite IH. Qed.

Lemma substring_whole (s : string) : String.substring 0 (String.length s) s = s.
Proof. induction s as [|c s IH]; simpl; [done|]. by rewrite IH. Qed.

Lemma substring_app_suffix (s t : string) :
  String.substring (String.length s) (String.length t) (s +:+ t) = t.
Proof. induction s as [|c s IH]; simpl; [apply substring_whole|done]. Qed.

Lemma substring_app_prefix (s t : string) :
  String.substring 0 (String.length s) (s +:+ t) = s.
Proof.
  induction s as [|c s IH]; simpl; [by destruct t|]. by rewrite IH.
Qed.

Lemma substring_split (s : string) :
  ∀ n, n ≤ String.length s →
       s = String.substring 0 n s +:+ String.substring n (String.length s - n) s.
Proof.
  induction s as [|c s IH]; intros [|n] Hn; simpl in *; try done; try lia.
  - by rewrite substring_whole.
  - change (String c ?x +:+ ?y) with (String c (x +:+ y)).
    f_equal. apply IH. lia.
Qed.

Lemma strings_HasSuffix_app (stem suffix : string) :
  strings_HasSuffix (stem +:+ suffix) suffix = true.
Proof.
  unfold strings_HasSuffix. rewrite string_length_app.
  replace (String.length stem + String.length suffix - String.length suffix)
    with (String.length stem) by lia.
  rewrite substring_app_suffix, String.eqb_refl, andb_true_r.
  apply Nat.leb_le. lia.
Qed.

Lemma strings_HasSuffix_inv (s suffix : string) :
  strings_HasSuffix s suffix = true → ∃ stem, s = stem +:+ suffix.
Proof.
  unfold strings_HasSuffix. intros [Hlen Heq]%andb_true_iff.
  apply Nat.leb_le in Hlen. apply String.eqb_eq in Heq.
  exists (String.substring 0 (String.length s - String.length suffix) s).
  pose proof (substring_split s (String.length s - String.length suffix)) as Hs.
  replace (String.length s - (String.length s - String.length suffix))
    with (String.length suffix) in Hs by lia.
  rewrite Heq in Hs. apply Hs. lia.
Qed.

(** [strings.TrimSuffix] takes a suffix that is there away, and leaves a
    string without the suffix as it is. *)
Lemma strings_TrimSuffix_app (stem suffix : string) :
  strings_TrimSuffix (stem +:+ suffix) suffix = stem.
Proof.
  unfold strings_TrimSuffix. rewrite strings_HasSuffix_app, string_length_app.
  replace (String.length stem + String.length suffix - String.length suffix)
    with (String.length stem) by lia.
  apply substring_app_prefix.
Qed.

Lemma strings_TrimSuffix_absent (s suffix : string) :
  (∀ stem, s ≠ stem +:+ suffix) → strings_TrimSuffix s suffix = s.
Proof.
  intros Habsent. unfold strings_TrimSuffix.
  destruct (strings_HasSuffix s suffix) eqn:Hs; [|done].
  apply strings_HasSuffix_inv in Hs as [stem ->]. by destruct (Habsent stem).
Qed.

(** *** Statements on [Compare] *)

(** C3. Without the flag, when the golden path resolves and the file can
    be read, [Compare] returns the empty string exactly when the file
    holds [actual]; when it holds something else and the diff library
    gives a diff, [Compare] returns the line that names the update
    command, then that diff: a unified diff of the lines of the file and
    of [actual], with context 3, labelled from the golden path to the
    golden path with its suffix [.golden] replaced by [.actual], or with
    [.actual] added when it has no such suffix. *)
Theorem Compare_read_mode (actual goldenFile : string) (w w1 : World)
    (fullPath expected : string) :
  updateGolden w = false →
  getFullPathForRead goldenFile w = ((fullPath, None), w1) →
  (ioutil_ReadFile fullPath w1).1 = (expected, None) →
  ((Compare actual goldenFile w).1 = Returned "" ↔ expected = actual) ∧
  (expected ≠ actual →
   ∃ toFile,
     (∀ stem, goldenFile = stem +:+ ".golden" → toFile = stem +:+ ".actual") ∧
     ((∀ stem, goldenFile ≠ stem +:+ ".golden") →
      toFile = goldenFile +:+ ".actual") ∧
     ∀ diffstr,
       difflib_GetUnifiedDiffString
         {| ud_A := difflib_SplitLines expected;
            ud_FromFile := goldenFile;
            ud_FromDate := "";
            ud_B := difflib_SplitLines actual;
            ud_ToFile := toFile;
            ud_ToDate := "";
            ud_Eol := "";
            ud_Context := 3 |} = (diffstr, None) →
       (Compare actual goldenFile w).1 =
         Returned (report_header +:+ str1 newline +:+ diffstr)) ∧
  (newline ∉ String.list_ascii_of_string report_header) ∧
  (∃ before after,
     report_header = before +:+ formatUpdateCommand +:+ after).
Proof.
  intros Hupdate Hresolve Hread. rewrite (Compare_read _ _ _ Hupdate), Hresolve.
  cbn [ioutil_ReadFile fst] in Hread. rewrite Hread. cbn zeta.
  split; [|split; [|split]].
  - destruct (String.eqb_spec expected actual) as [->|Hne]; [done|].
    split; [|done]. by destruct (difflib_GetUnifiedDiffString _) as [? [?|]].
  - intros Hne. exists (strings_TrimSuffix goldenFile ".golden" +:+ ".actual").
    split; [|split].
    + intros stem ->. by rewrite strings_TrimSuffix_app.
    + intros Habsent. by rewrite strings_TrimSuffix_absent.
    + intros diffstr Hdiff. apply String.eqb_neq in Hne. by rewrite Hne, Hdiff.
  - apply (bool_decide_unpack _). by vm_compute.
  - exists ("Actual data differs from golden data; run " +:+ str1 dquote),
           (str1 dquote +:+ " to update"). reflexivity.
Qed.

(** C4. With the flag, when the resolver for writes gives a path and the
    write succeeds, [Compare] returns the empty string, and the file at
    that path then holds exactly [actual]. *)
Theorem Compare_update_overwrites (actual goldenFile : string) (w w1 w2 : World)
    (fullPath : string) :
  updateGolden w = true →
  getFullPathForWrite goldenFile w = ((fullPath, None), w1) →
  ioutil_WriteFile fullPath actual w1 = (None, w2) →
  Compare actual goldenFile w = (Returned "", w2) ∧
  files w2 = <[fullPath := File actual]> (files w) ∧
  (ioutil_ReadFile fullPath w2).1 = (actual, None).
Proof.
  intros Hupdate Hresolve Hwrite.
  rewrite (Compare_update _ _ _ Hupdate), Hresolve.
  pose proof (getFullPathForWrite_world w goldenFile) as (Hfiles & _).
  rewrite Hresolve in Hfiles. cbn [snd] in Hfiles.
  unfold ioutil_WriteFile in Hwrite.
  destruct (write_file (files w1) fullPath actual) as [fs' err] eqn:Hw.
  injection Hwrite as -> <-.
  split; [done|]. cbn [files ioutil_ReadFile fst].
  destruct (read_after_write _ _ _ _ Hw) as [_ ->].
  apply write_file_ok in Hw as (-> & _). by rewrite Hfiles.
Qed.

Lemma candidates_same_roots (w w' : World) (relPath : string) :
  GOPATH w' = GOPATH w → candidates w' relPath = candidates w relPath.
Proof. unfold candidates, roots. by intros ->. Qed.

(** After a write to the path the resolver for writes gave, no other
    candidate exists. *)
Lemma written_candidate_only (w : World) (relPath p q data : string)
    (fs' : gmap string node) :
  (getFullPathForWrite relPath w).1 = (p, None) →
  write_file (files w) p data = (fs', None) →
  q ∈ candidates w relPath → exists_in fs' q → q = p.
Proof.
  intros Hresolve Hwrite Hq Hex.
  destruct (decide (q = p)) as [|Hne]; [done|].
  pose proof (exists_before_write _ _ _ _ _ Hwrite Hne Hex) as Hbefore.
  destruct (roots_cases w) as [Hr|[[root Hr]|Hr]].
  - unfold candidates in Hq. rewrite Hr in Hq. by apply elem_of_nil in Hq.
  - rewrite (single_root_candidate w relPath root Hr) in Hresolve.
    injection Hresolve as <-. unfold candidates in Hq. rewrite Hr in Hq.
    by apply list_elem_of_singleton in Hq.
  - by apply (getFullPathForWrite_multi_path w relPath p Hr Hresolve).
Qed.

(** C5. After a [Compare] with the flag that returned, a [Compare]
    without the flag, of the same value and the same golden path, on the
    file system the first one left and with the same GOPATH, returns the
    empty string. *)
Theorem Compare_write_then_read (V goldenFile : string) (w w1 w2 : World)
    (out : string) :
  updateGolden w = true →
  Compare V goldenFile w = (Returned out, w1) →
  files w2 = files w1 → GOPATH w2 = GOPATH w → updateGolden w2 = false →
  (Compare V goldenFile w2).1 = Returned "".
Proof.
  intros Hupdate Hfirst Hfiles Hgopath Hread.
  rewrite (Compare_update _ _ _ Hupdate) in Hfirst.
  pose proof (getFullPathForWrite_world w goldenFile) as (Hfw & _).
  pose proof (getFullPathForWrite_sound w goldenFile) as Hsound.
  pose proof (written_candidate_only w goldenFile) as Honly.
  destruct (getFullPathForWrite goldenFile w) as [[p [e|]] wa]; [done|].
  cbn [fst snd] in Hfw, Hsound, Honly.
  destruct (write_file (files wa) p V) as [fs' [e|]] eqn:Hwrite; [done|].
  injection Hfirst as _ <-. cbn [files] in Hfiles.
  rewrite Hfw in Hwrite.
  destruct (read_after_write _ _ _ _ Hwrite) as [Hex Hcontents].
  rewrite <-Hfiles in Hex, Hcontents.
  assert (p ∈ candidates w2 goldenFile) as Hin.
  { rewrite (candidates_same_roots w w2) by done. by apply Hsound. }
  destruct (first_existing_find w2 goldenFile p Hin Hex) as (i & p' & Hfirst).
  assert (p' = p) as ->.
  { destruct Hfirst as (Hi & Hp' & _).
    apply (Honly p p' V fs' eq_refl Hwrite).
    - rewrite <-(candidates_same_roots w w2) by done.
      apply list_elem_of_lookup. by exists i.
    - by rewrite <-Hfiles. }
  rewrite (Compare_read _ _ _ Hread).
  pose proof (getFullPathForRead_first w2 goldenFile i p Hfirst) as Hres.
  pose proof (getFullPathForRead_world w2 goldenFile) as (Hfr & _).
  destruct (getFullPathForRead goldenFile w2) as [[p2 err] wb].
  cbn [fst snd] in Hres, Hfr. injection Hres as -> ->.
  rewrite Hfr, Hcontents. by rewrite String.eqb_refl.
Qed.

(** *** The frame of a write *)







Lemma Compare_update_effects (actual goldenFile : string) (w : World) :
  updateGolden w = true →
  (GOPATH (Compare actual goldenFile w).2 = GOPATH w ∧
   updateGolden (Compare actual goldenFile w).2 = updateGolden w) ∧
  (∃ calls, trace (Compare actual goldenFile w).2 = trace w ++ calls ∧
            Forall (λ c, ¬ is_read c) calls) ∧
  match (Compare actual goldenFile w).1 with
  | Returned out =>
      out = "" ∧
      ∃ p, (getFullPathForWrite goldenFile w).1 = (p, None) ∧
           files (Compare actual goldenFile w).2 = <[p := File actual]> (files w) ∧
           ∀ q, q ≠ p → files (Compare actual goldenFile w).2 !! q = files w !! q
  | Fatal _ => files (Compare actual goldenFile w).2 = files w
  end.
Proof.
  intros Hupdate. rewrite (Compare_update _ _ _ Hupdate).
  pose proof (getFullPathForWrite_world w goldenFile)
    as (Hf & Hg & Hu & calls & Ht & Hcalls).
  destruct (getFullPathForWrite goldenFile w) as [[p [e|]] w1];
    cbn [fst snd] in *.
  - split; [done|]. split; [|done]. exists calls. split; [done|].
    eapply Forall_impl; [exact Hcalls|]. intros c [name ->] H. exact H.
  - assert (∃ calls', trace w1 ++ [SysWriteFile p actual] = trace w ++ calls' ∧
                      Forall (λ c, ¬ is_read c) calls') as Htrace.
    { exists (calls ++ [SysWriteFile p actual]). rewrite Ht, app_assoc.
      split; [done|]. apply Forall_app. split.
      - eapply Forall_impl; [exact Hcalls|]. intros c [name ->] H. exact H.
      - constructor; [intros H; exact H|constructor]. }
    destruct (write_file (files w1) p actual) as [fs' [e|]] eqn:Hwrite;
      cbn [fst snd files GOPATH updateGolden trace].
    + split; [done|]. split; [done|].
      apply write_file_failed in Hwrite. by subst fs'.
    + split; [done|]. split; [done|]. split; [done|].
      apply write_file_ok in Hwrite as (-> & _). exists p. rewrite Hf.
      split; [done|]. split; [done|]. intros q Hq. by rewrite lookup_insert_ne.
Qed.











(** ** Further properties of build.go *)

(** *** [sortedKeys] *)

Lemma sorted_keys_unique (l1 l2 : list string) :
  Sorted string_le l1 → Sorted string_le l2 → l1 ≡ₚ l2 → l1 = l2.
Proof. apply (Sorted_unique string_le). Qed.

(** X1. [sortedKeys] returns every key of the map once, in the order of
    [sort.Strings], and nothing else; any list of the keys in that order
    is this list, so the order in which the map is iterated does not
    show. *)
Theorem sortedKeys_sorted_keys (m : gmap string bool) (l : list string) :
  l ≡ₚ (map_to_list m).*1 → Sorted string_le l →
  l = sortedKeys m ∧
  NoDup (sortedKeys m) ∧
  (∀ k, k ∈ sortedKeys m ↔ is_Some (m !! k)) ∧
  length (sortedKeys m) = size m.
Proof.
  intros Hperm Hsorted. split; [|split; [|split]].
  - apply sorted_keys_unique; [done|apply sortedKeys_Sorted|].
    by rewrite sortedKeys_Permutation.
  - apply sortedKeys_NoDup.
  - apply sortedKeys_elem_of.
  - apply sortedKeys_length.
Qed.

(** Maps with the same keys have the same sorted keys. *)
Lemma sortedKeys_same_keys (m1 m2 : gmap string bool) :
  (∀ k, is_Some (m1 !! k) ↔ is_Some (m2 !! k)) → sortedKeys m1 = sortedKeys m2.
Proof.
  intros Hkeys. apply sorted_keys_unique; [apply sortedKeys_Sorted..|].
  apply NoDup_Permutation; [apply sortedKeys_NoDup..|].
  intros k. by rewrite !sortedKeys_elem_of.
Qed.

Lemma sortedKeys_one_key (m : gmap string bool) (p : string) :
  (∀ k, is_Some (m !! k) ↔ k = p) → sortedKeys m = [p].
Proof.
  intros Hkeys. pose proof (sortedKeys_NoDup m) as Hnodup.
  assert (∀ k, k ∈ sortedKeys m ↔ k = p) as Hin.
  { intros k. by rewrite sortedKeys_elem_of. }
  destruct (sortedKeys m) as [|x [|y l]].
  - assert (p ∈ @nil string) as Hp by by apply Hin.
    by apply elem_of_nil in Hp.
  - f_equal. apply Hin. by left.
  - assert (x = p) as -> by (apply Hin; by left).
    assert (y = p) as -> by (apply Hin; right; by left).
    apply NoDup_cons in Hnodup as [Hnotin _]. destruct Hnotin. by left.
Qed.

(** *** What the resolvers ask the file system *)

Lemma read_range_calls_first (relPath : string) (goPaths : list string) :
  ∀ err w i p,
    (candidate relPath <$> goPaths) !! i = Some p →
    exists_in (files w) p →
    (∀ j q, j < i → (candidate relPath <$> goPaths) !! j = Some q →
            ¬ exists_in (files w) q) →
    trace (getFullPathForRead_range relPath goPaths err w).2 =
      trace w ++ (SysStat <$> take (S i) (candidate relPath <$> goPaths)).
Proof.
  induction goPaths as [|r goPaths IH]; intros err w i p Hi Hp Hbefore;
    [done|].
  cbn [getFullPathForRead_range]. unfold bind, os_Stat.
  fold (candidate relPath r). rewrite fmap_cons.
  destruct i as [|i]; simpl in Hi.
  - injection Hi as <-. unfold exists_in in Hp. rewrite Hp. simpl.
    reflexivity.
  - destruct (stat (files w) (candidate relPath r)) eqn:Hr.
    + rewrite (IH _ (log_call _ w) i p Hi Hp).
      * cbn [log_call trace take fmap list_fmap]. by rewrite <-app_assoc.
      * intros j q Hj Hq. apply (Hbefore (S j) q); [lia|done].
    + destruct (Hbefore 0 (candidate relPath r)); [lia|done|done].
Qed.

Lemma read_range_calls_none (relPath : string) (goPaths : list string) :
  ∀ err w,
    (∀ q, q ∈ candidate relPath <$> goPaths → ¬ exists_in (files w) q) →
    trace (getFullPathForRead_range relPath goPaths err w).2 =
      trace w ++ (SysStat <$> (candidate relPath <$> goPaths)).
Proof.
  induction goPaths as [|r goPaths IH]; intros err w Hnone.
  - simpl. by rewrite app_nil_r.
  - cbn [getFullPathForRead_range]. unfold bind, os_Stat.
    fold (candidate relPath r). rewrite fmap_cons.
    destruct (stat (files w) (candidate relPath r)) eqn:Hr.
    + rewrite (IH _ (log_call _ w)).
      * cbn [log_call trace fmap list_fmap]. by rewrite <-app_assoc.
      * intros q Hq. apply Hnone. by right.
    + destruct (Hnone (candidate relPath r)); [by left|done].
Qed.

Lemma first_existing_unique (w : World) (relPath : string) (i j : nat)
    (p q : string) :
  first_existing w relPath i p → first_existing w relPath j q → i = j ∧ p = q.
Proof.
  intros (Hi & Hp & Hbefore_i) (Hj & Hq & Hbefore_j).
  assert (i = j) as ->.
  { destruct (Nat.lt_trichotomy i j) as [Hlt|[?|Hlt]]; [|done|].
    - by destruct (Hbefore_j i p Hlt Hi).
    - by destruct (Hbefore_i j q Hlt Hj). }
  split; [done|]. congruence.
Qed.

(** A path [getFullPathForRead] returns is the first candidate that
    exists. *)
Lemma getFullPathForRead_is_first (w : World) (relPath p : string) :
  (getFullPathForRead relPath w).1 = (p, None) →
  ∃ i, first_existing w relPath i p.
Proof.
  intros Hres. pose proof (getFullPathForRead_sound w relPath p Hres) as [Hin Hex].
  destruct (first_existing_find w relPath p Hin Hex) as (i & p' & Hfirst).
  rewrite (getFullPathForRead_first w relPath i p' Hfirst) in Hres.
  injection Hres as ->. by exists i.
Qed.

(** X2. [getFullPathForRead] calls [os.Stat] on the candidates in root
    order and stops at the first that exists: the roots after it are not
    looked at.  When no candidate exists it has looked at all of them. *)
Theorem getFullPathForRead_calls (w : World) (relPath : string) :
  (∀ i p, first_existing w relPath i p →
          trace (getFullPathForRead relPath w).2 =
            trace w ++ (SysStat <$> take (S i) (candidates w relPath))) ∧
  ((∀ q, q ∈ candidates w relPath → ¬ exists_in (files w) q) →
   trace (getFullPathForRead relPath w).2 =
     trace w ++ (SysStat <$> candidates w relPath)).
Proof.
  split.
  - intros i p (Hi & Hp & Hbefore).
    assert (roots w ≠ []) as Hne.
    { unfold candidates in Hi. intros Hnil. by rewrite Hnil in Hi. }
    unfold getFullPathForRead. rewrite (roots_nonempty_length w Hne).
    unfold bind.
    pose proof (read_range_calls_first relPath (filepath_SplitList (GOPATH w))
                  None w i p Hi Hp Hbefore) as Htrace.
    pose proof (read_range_first relPath (filepath_SplitList (GOPATH w))
                  None w i p Hi Hp Hbefore) as Hres.
    destruct (getFullPathForRead_range _ _ _ w) as [[found err] w'].
    cbn [fst snd] in *. by injection Hres as -> ->.
  - intros Hnone. unfold getFullPathForRead, candidates, roots in *.
    destruct (length (filepath_SplitList (GOPATH w)) =? 0) eqn:Hlen.
    + apply Nat.eqb_eq, nil_length_inv in Hlen. rewrite Hlen. simpl.
      by rewrite app_nil_r.
    + unfold bind.
      pose proof (read_range_calls_none relPath (filepath_SplitList (GOPATH w))
                    None w Hnone) as Htrace.
      destruct (getFullPathForRead_range _ _ _ w) as [[[found|] err] w'];
        cbn [fst snd] in *; [done|].
      unfold ret. by destruct (os_IsNotExist err).
Qed.

(** X3. With two roots or more [getFullPathForWrite] looks at every root,
    whatever it finds: for each root in order it calls [os.Stat] on the
    candidate and then on the directory of the candidate, and it leaves
    the file system and the globals as they were. *)
Theorem getFullPathForWrite_calls (w : World) (relPath : string) :
  2 ≤ length (roots w) →
  trace (getFullPathForWrite relPath w).2 =
    trace w ++ flat_map (λ root, [SysStat (candidate relPath root);
                                  SysStat (filepath_Dir (candidate relPath root))])
                        (roots w) ∧
  files (getFullPathForWrite relPath w).2 = files w ∧
  GOPATH (getFullPathForWrite relPath w).2 = GOPATH w ∧
  updateGolden (getFullPathForWrite relPath w).2 = updateGolden w.
Proof.
  intros Hlen. unfold getFullPathForWrite, roots in *.
  pose proof (write_range_world relPath (filepath_SplitList (GOPATH w))
                (mkWriteMaps ∅ ∅ ∅) w) as (Hf & Hg & Hu & Ht).
  destruct (filepath_SplitList (GOPATH w)) as [|r1 [|r2 gp]];
    simpl in Hlen; try lia.
  cbn [length Nat.eqb]. unfold bind.
  destruct (getFullPathForWrite_range _ _ _ w) as [m w'].
  cbn [snd] in Hf, Hg, Hu, Ht. unfold ret.
  repeat match goal with
         | |- context [if ?b then _ else _] => destruct b
         | |- context [match ?o with Some _ => _ | None => _ end] => destruct o
         end; done.
Qed.

(** *** How the two resolvers go together *)

(** X4. The two resolvers never disagree: when both return a path for the
    same golden file, it is the same path.  And when the first candidate
    that exists is the only one that exists, [getFullPathForWrite] returns
    it as [getFullPathForRead] does. *)
Theorem resolvers_agree (w : World) (relPath : string) :
  (∀ p q, (getFullPathForRead relPath w).1 = (p, None) →
          (getFullPathForWrite relPath w).1 = (q, None) → p = q) ∧
  (∀ i p, first_existing w relPath i p →
          (∀ q, q ∈ candidates w relPath → exists_in (files w) q → q = p) →
          (getFullPathForRead relPath w).1 = (p, None) ∧
          (getFullPathForWrite relPath w).1 = (p, None)).
Proof.
  split.
  - intros p q Hread Hwrite.
    apply getFullPathForRead_sound in Hread as [Hin Hex].
    destruct (roots_cases w) as [Hr|[[root Hr]|Hr]].
    + unfold candidates in Hin. rewrite Hr in Hin. by apply elem_of_nil in Hin.
    + rewrite (single_root_candidate w relPath root Hr) in Hwrite.
      injection Hwrite as <-. unfold candidates in Hin. rewrite Hr in Hin.
      by apply list_elem_of_singleton in Hin.
    + by apply (getFullPathForWrite_multi_path w relPath q Hr Hwrite).
  - intros i p Hfirst Honly.
    split; [by apply (getFullPathForRead_first w relPath i)|].
    destruct Hfirst as (Hi & Hp & _).
    assert (p ∈ candidates w relPath) as Hin.
    { apply list_elem_of_lookup. by exists i. }
    destruct (roots_cases w) as [Hr|[[root Hr]|Hr]].
    + unfold candidates in Hin. rewrite Hr in Hin. by apply elem_of_nil in Hin.
    + rewrite (single_root_candidate w relPath root Hr).
      unfold candidates in Hin. rewrite Hr in Hin.
      by apply list_elem_of_singleton in Hin as ->.
    + destruct (getFullPathForWrite_multi w relPath Hr)
        as (m & HE & _ & _ & ->).
      rewrite (sortedKeys_one_key (existingFiles m) p); [done|].
      intros k. rewrite HE. split; [intros [? ?]; by apply Honly|].
      by intros ->.
Qed.

(** X5. With two roots or more, a path [getFullPathForWrite] returns
    either exists, or no candidate exists and its directory does: it is
    never a path in a directory that is not there. *)
Theorem getFullPathForWrite_path_writable (w : World) (relPath p : string) :
  2 ≤ length (roots w) →
  (getFullPathForWrite relPath w).1 = (p, None) →
  exists_in (files w) p ∨
  (exists_in (files w) (filepath_Dir p) ∧
   ∀ q, q ∈ candidates w relPath → ¬ exists_in (files w) q).
Proof.
  intros Hlen Hres.
  destruct (getFullPathForWrite_multi w relPath Hlen)
    as (m & HE & HD & _ & Heq).
  rewrite Heq in Hres. clear Heq.
  destruct (sortedKeys (existingFiles m)) as [|x [|??]] eqn:HEs; [| |done].
  - right.
    assert (∀ q, q ∈ candidates w relPath → ¬ exists_in (files w) q) as Hnone.
    { intros q Hq Hex.
      assert (q ∈ sortedKeys (existingFiles m)) as Hin
          by (apply sortedKeys_elem_of, HE; by split).
      rewrite HEs in Hin. by apply elem_of_nil in Hin. }
    split; [|done].
    destruct (sortedKeys (filesWithExistingDir m)) as [|x [|??]] eqn:HDs;
      [done| |done].
    injection Hres as <-.
    assert (x ∈ sortedKeys (filesWithExistingDir m)) as Hx
        by (rewrite HDs; by left).
    by apply sortedKeys_elem_of, HD in Hx as [_ ?].
  - left. injection Hres as <-.
    assert (x ∈ sortedKeys (existingFiles m)) as Hx by (rewrite HEs; by left).
    by apply sortedKeys_elem_of, HE in Hx as [_ ?].
Qed.

(** X6. With two roots or more the answer of [getFullPathForWrite] does
    not hang on the order of the roots, nor on a root that is listed
    twice: two root lists with the same roots give the same path or the
    same error. *)
Theorem getFullPathForWrite_root_order (w w' : World) (relPath : string) :
  files w' = files w →
  (∀ root, root ∈ roots w' ↔ root ∈ roots w) →
  2 ≤ length (roots w) → 2 ≤ length (roots w') →
  (getFullPathForWrite relPath w').1 = (getFullPathForWrite relPath w).1.
Proof.
  intros Hfiles Hroots Hlen Hlen'.
  destruct (getFullPathForWrite_multi w relPath Hlen)
    as (m & HE & HD & HP & ->).
  destruct (getFullPathForWrite_multi w' relPath Hlen')
    as (m' & HE' & HD' & HP' & ->).
  assert (∀ x, x ∈ candidates w' relPath ↔ x ∈ candidates w relPath) as Hcands.
  { intros x. unfold candidates. rewrite !list_elem_of_fmap.
    split; intros (root & -> & Hroot); exists root; (split; [done|]);
      by apply Hroots. }
  rewrite (sortedKeys_same_keys (existingFiles m') (existingFiles m)),
    (sortedKeys_same_keys (filesWithExistingDir m') (filesWithExistingDir m)),
    (sortedKeys_same_keys (possibleDirectories m') (possibleDirectories m));
    [done|..].
  - intros d. rewrite HP, HP'. by setoid_rewrite Hcands.
  - intros x. by rewrite HD, HD', Hcands, Hfiles.
  - intros x. by rewrite HE, HE', Hcands, Hfiles.
Qed.

(** *** Paths and errors *)

Lemma lb_append_length (b : lazybuf) (c : ascii) :
  length (lb_buf (lb_append b c)) = length (lb_buf b).
Proof. unfold lb_append. simpl. apply length_insert. Qed.

Lemma clean_backtrack_buf (fuel : nat) :
  ∀ out dotdot, lb_buf (clean_backtrack fuel out dotdot) = lb_buf out.
Proof.
  induction fuel as [|fuel IH]; intros out dotdot; [done|].
  cbn [clean_backtrack]. destruct (_ && _); [|done]. by rewrite IH.
Qed.

Lemma clean_copy_length (path : list ascii) (fuel : nat) :
  ∀ r out,
    length (lb_buf (clean_copy fuel path r out).2) = length (lb_buf out).
Proof.
  induction fuel as [|fuel IH]; intros r out; [done|].
  cbn [clean_copy]. destruct (path !! r) as [c|]; [|done].
  destruct (Ascii.eqb c slash); [done|]. by rewrite IH, lb_append_length.
Qed.

Lemma clean_loop_length (path : list ascii) (rooted : bool) (fuel : nat) :
  ∀ r out dotdot,
    length (lb_buf (clean_loop fuel path rooted r out dotdot))
    = length (lb_buf out).
Proof.
  induction fuel as [|fuel IH]; intros r out dotdot; [done|].
  cbn [clean_loop]. cbn zeta.
  destruct (length path <=? r); [done|].
  destruct (Ascii.eqb (byte_at path r) slash); [apply IH|].
  destruct (_ && _); [apply IH|].
  destruct (_ && _).
  { destruct (dotdot <? lb_w out).
    - by rewrite IH, clean_backtrack_buf.
    - destruct (negb rooted); [|apply IH].
      rewrite IH, !lb_append_length. by destruct (0 <? lb_w out);
        rewrite ?lb_append_length. }
  match goal with |- context [clean_copy ?f path r ?o] =>
    pose proof (clean_copy_length path f r o) as Hcopy;
    destruct (clean_copy f path r o) as [r' out2] end.
  cbn [snd] in Hcopy. rewrite IH, Hcopy.
  by destruct (_ || _); rewrite ?lb_append_length.
Qed.

(** [path.Clean] never returns the empty string. *)
Lemma path_Clean_nonempty (path : string) : path_Clean path ≠ "".
Proof.
  destruct path as [|c path]; [done|]. unfold path_Clean.
  set (p := String.list_ascii_of_string (String c path)).
  assert (length p = S (length (String.list_ascii_of_string path))) as Hp
      by done.
  destruct (Ascii.eqb c slash).
  - cbn zeta beta iota.
    pose proof (clean_loop_length p true (length p) 1
                  (lb_append (Lazybuf p 0) slash) 1) as Hlen.
    rewrite lb_append_length in Hlen. cbn [lb_buf] in Hlen.
    destruct (clean_loop _ _ _ _ _ _) as [buf [|n]]; [done|].
    cbn [lb_buf lb_w Nat.eqb] in *. unfold lb_string. cbn [lb_buf lb_w].
    destruct buf as [|x buf]; [simpl in Hlen; lia|done].
  - cbn zeta beta iota.
    pose proof (clean_loop_length p false (length p) 0 (Lazybuf p 0) 0) as Hlen.
    cbn [lb_buf] in Hlen.
    destruct (clean_loop _ _ _ _ _ _) as [buf [|n]]; [done|].
    cbn [lb_buf lb_w Nat.eqb] in *. unfold lb_string. cbn [lb_buf lb_w].
    destruct buf as [|x buf]; [simpl in Hlen; lia|done].
Qed.

(** [path.Join] returns the empty string only for empty elements. *)
Lemma path_Join_empty (elem : list string) :
  path_Join elem = "" ↔ Forall (λ e, e = "") elem.
Proof.
  induction elem as [|e elem IH]; [done|]. unfold path_Join. fold path_Join.
  destruct e as [|c e].
  - rewrite IH. split; [by constructor|]. by intros [_ ?]%Forall_cons.
  - split; [intros H; by apply path_Clean_nonempty in H|].
    by intros [? _]%Forall_cons.
Qed.

Lemma candidate_nonempty (relPath root : string) : candidate relPath root ≠ "".
Proof.
  unfold candidate. rewrite path_Join_empty.
  intros [_ [? _]%Forall_cons]%Forall_cons. done.
Qed.

(** The results of the two resolvers: a candidate and no error, or the
    empty path and an error. *)
Lemma getFullPathForRead_result (w : World) (relPath : string) :
  (∃ p, (getFullPathForRead relPath w).1 = (p, None) ∧
        p ∈ candidates w relPath) ∨
  (∃ e, (getFullPathForRead relPath w).1 = ("", Some e)).
Proof.
  destruct (getFullPathForRead relPath w).1 as [p [e|]] eqn:Hres.
  - right. exists e. f_equal. revert Hres. unfold getFullPathForRead.
    destruct (length (filepath_SplitList (GOPATH w)) =? 0);
      [by intros [= <- _]|].
    unfold bind.
    destruct (getFullPathForRead_range _ _ _ w) as [[[found|] err] w'];
      [done|].
    unfold ret. by destruct (os_IsNotExist err); intros [= <- _].
  - left. exists p. split; [done|].
    by apply getFullPathForRead_sound in Hres as [? _].
Qed.

Lemma getFullPathForWrite_result (w : World) (relPath : string) :
  (∃ p, (getFullPathForWrite relPath w).1 = (p, None) ∧
        p ∈ candidates w relPath) ∨
  (∃ e, (getFullPathForWrite relPath w).1 = ("", Some e)).
Proof.
  destruct (getFullPathForWrite relPath w).1 as [p [e|]] eqn:Hres.
  - right. exists e. f_equal. revert Hres.
    destruct (roots_cases w) as [Hr|[[root Hr]|Hr]].
    + rewrite (proj2 (empty_roots_nil w relPath Hr)). by intros [= <- _].
    + by rewrite (single_root_candidate w relPath root Hr).
    + destruct (getFullPathForWrite_multi w relPath Hr) as (m & _ & _ & _ & ->).
      destruct (sortedKeys (existingFiles m)) as [|? [|??]];
        [|done|by intros [= <- _]].
      destruct (sortedKeys (filesWithExistingDir m)) as [|? [|??]];
        [|done|]; by intros [= <- _].
  - left. exists p. split; [done|]. by apply getFullPathForWrite_sound.
Qed.

(** X7. Each resolver returns the empty path exactly when it returns an
    error: a caller may test either. *)
Theorem resolvers_empty_path_iff_error (w : World) (relPath : string) :
  ((getFullPathForRead relPath w).1.1 = "" ↔
   is_Some (getFullPathForRead relPath w).1.2) ∧
  ((getFullPathForWrite relPath w).1.1 = "" ↔
   is_Some (getFullPathForWrite relPath w).1.2).
Proof.
  assert (∀ p, p ∈ candidates w relPath → p ≠ "") as Hcand.
  { intros p (root & -> & _)%list_elem_of_fmap. apply candidate_nonempty. }
  split.
  - destruct (getFullPathForRead_result w relPath)
      as [(p & -> & Hin)|(e & ->)]; simpl.
    + split; [by intros ?%Hcand|by intros [? ?]].
    + split; [by eexists|done].
  - destruct (getFullPathForWrite_result w relPath)
      as [(p & -> & Hin)|(e & ->)]; simpl.
    + split; [by intros ?%Hcand|by intros [? ?]].
    + split; [by eexists|done].
Qed.

(** *** The root list and GOPATH *)

Lemma strings_Split_nonempty (s : string) (sep : ascii) :
  strings_Split s sep ≠ [].
Proof.
  destruct s as [|c s]; [done|]. simpl.
  destruct (Ascii.eqb c sep); [done|]. by destruct (strings_Split s sep).
Qed.

Lemma strings_Split_no_sep (s : string) (sep : ascii) :
  sep ∉ String.list_ascii_of_string s → strings_Split s sep = [s].
Proof.
  induction s as [|c s IH]; [done|]. simpl. intros Hsep.
  destruct (Ascii.eqb_spec c sep) as [->|Hne]; [destruct Hsep; by left|].
  rewrite IH; [done|]. intros Hin. apply Hsep. by right.
Qed.

(** There are no roots exactly when GOPATH is the empty string. *)
Lemma roots_empty_iff (w : World) : roots w = [] ↔ GOPATH w = "".
Proof.
  unfold roots, filepath_SplitList. destruct (GOPATH w) as [|c s]; [done|].
  split; [|done]. intros H. by apply strings_Split_nonempty in H.
Qed.

(** The error of the loop of [getFullPathForRead] is the one it began
    with, or one of [os.Stat]. *)
Lemma read_range_error (relPath : string) (goPaths : list string) :
  ∀ err w,
    (getFullPathForRead_range relPath goPaths err w).1.2 = err ∨
    (getFullPathForRead_range relPath goPaths err w).1.2 = None ∨
    ∃ name e,
      (getFullPathForRead_range relPath goPaths err w).1.2
      = Some (PathError "stat" name e).
Proof.
  induction goPaths as [|r goPaths IH]; intros err w; [by left|].
  cbn [getFullPathForRead_range]. unfold bind, os_Stat.
  destruct (stat (files w) _) as [e|] eqn:Hstat; [|right; by left].
  destruct (IH (Some e) (log_call (SysStat (path_Join [r; "src"; relPath])) w))
    as [->|[->|(name & e' & ->)]]; [|right; by left|right; right; by eexists _, _].
  right. right. unfold stat in Hstat.
  destruct (resolve (files w) _) as [x|]; [|done].
  injection Hstat as <-. by eexists _, _.
Qed.

Lemma NotFoundError_not_ConfigError (relPath : string) :
  NotFoundError relPath ≠ ConfigError.
Proof.
  unfold NotFoundError, ConfigError. intros [= H].
  apply (f_equal String.length) in H. rewrite string_length_app in H.
  simpl in H. lia.
Qed.

(** X8. Each resolver reports "GOPATH is empty" exactly when GOPATH is
    the empty string. *)
Theorem config_error_iff_empty_GOPATH (w : World) (relPath : string) :
  ((getFullPathForRead relPath w).1.2 = Some ConfigError ↔ GOPATH w = "") ∧
  ((getFullPathForWrite relPath w).1.2 = Some ConfigError ↔ GOPATH w = "").
Proof.
  rewrite <-roots_empty_iff. split; split.
  - intros Herr. destruct (decide (roots w = [])) as [|Hne]; [done|].
    exfalso. revert Herr. unfold getFullPathForRead.
    rewrite (roots_nonempty_length w Hne). unfold bind.
    pose proof (read_range_error relPath (filepath_SplitList (GOPATH w)) None w)
      as Herr.
    destruct (getFullPathForRead_range _ _ _ w) as [[[found|] err] w'];
      [done|]. cbn [fst snd] in Herr. unfold ret.
    destruct Herr as [->|[->|(name & e & ->)]]; [done..|].
    destruct (os_IsNotExist _); [|done].
    simpl. intros [= H]. apply (NotFoundError_not_ConfigError relPath).
    unfold NotFoundError, ConfigError. by f_equal.
  - intros Hr. by rewrite (proj1 (empty_roots_nil w relPath Hr)).
  - intros Herr. destruct (roots_cases w) as [Hr|[[root Hr]|Hr]]; [done|..].
    + by rewrite (single_root_candidate w relPath root Hr) in Herr.
    + exfalso. revert Herr.
      destruct (getFullPathForWrite_multi w relPath Hr) as (m & _ & _ & _ & ->).
      destruct (sortedKeys (existingFiles m)) as [|? [|??]];
        [|done|by intros [= H]].
      destruct (sortedKeys (filesWithExistingDir m)) as [|? [|??]];
        [|done|]; by intros [= H].
  - intros Hr. by rewrite (proj2 (empty_roots_nil w relPath Hr)).
Qed.

(** X9. When GOPATH is not empty and holds no list separator, it is the
    one root: [getFullPathForWrite] returns
    [path.Join(GOPATH, "src", relPath)] without a look at the file
    system. *)
Theorem getFullPathForWrite_plain_GOPATH (w : World) (relPath : string) :
  GOPATH w ≠ "" →
  colon ∉ String.list_ascii_of_string (GOPATH w) →
  getFullPathForWrite relPath w =
    ((path_Join [GOPATH w; "src"; relPath], None), w).
Proof.
  intros Hne Hcolon.
  apply (single_root_candidate w relPath (GOPATH w)).
  unfold roots, filepath_SplitList.
  destruct (GOPATH w) as [|c s] eqn:Hg; [done|].
  by apply strings_Split_no_sep.
Qed.

(** ** Further properties of golden.go *)

Lemma getFullPathForRead_stats (w : World) (relPath : string) :
  ∃ names, trace (getFullPathForRead relPath w).2 = trace w ++ (SysStat <$> names).
Proof.
  destruct (list_find (exists_in (files w)) (candidates w relPath))
    as [[i p]|] eqn:Hfind.
  - apply list_find_Some in Hfind as (Hi & Hp & Hbefore).
    eexists. apply (proj1 (getFullPathForRead_calls w relPath) i p).
    split; [done|]. split; [done|]. intros j q Hj Hq. by apply (Hbefore j q).
  - eexists. apply (proj2 (getFullPathForRead_calls w relPath)).
    intros q Hin. apply list_find_None in Hfind.
    by apply (proj1 (Forall_forall _ _) Hfind).
Qed.

(** X10. Without the flag [Compare] only reads: whatever its outcome, the
    file system and the two globals are as before, and the calls it made
    are calls of [os.Stat], then at most one call of [ioutil.ReadFile], on
    the path [getFullPathForRead] gave. *)
Theorem Compare_read_only (actual goldenFile : string) (w : World) :
  updateGolden w = false →
  files (Compare actual goldenFile w).2 = files w ∧
  GOPATH (Compare actual goldenFile w).2 = GOPATH w ∧
  updateGolden (Compare actual goldenFile w).2 = updateGolden w ∧
  ∃ names reads,
    trace (Compare actual goldenFile w).2
    = trace w ++ (SysStat <$> names) ++ reads ∧
    (reads = [] ∨
     ∃ p, reads = [SysReadFile p] ∧
          (getFullPathForRead goldenFile w).1 = (p, None)).
Proof.
  intros Hupdate. rewrite (Compare_read _ _ _ Hupdate).
  pose proof (getFullPathForRead_world w goldenFile) as (Hf & Hg & Hu).
  destruct (getFullPathForRead_stats w goldenFile) as [names Ht].
  destruct (getFullPathForRead goldenFile w) as [[p [e|]] w1];
    cbn [fst snd] in *.
  - repeat (split; [done|]). exists names, []. rewrite app_nil_r. by split; [|left].
  - assert (∃ names' reads,
              trace (log_call (SysReadFile p) w1)
              = trace w ++ (SysStat <$> names') ++ reads ∧
              (reads = [] ∨ ∃ p', reads = [SysReadFile p'] ∧
                                  (p, @None error) = (p', None))) as Htrace.
    { exists names, [SysReadFile p]. cbn [log_call trace].
      rewrite Ht, app_assoc. split; [done|]. right. by exists p. }
    destruct (read_file (files w1) p) as [expected [e|]]; [done|].
    destruct (String.eqb expected actual); [done|].
    by destruct (difflib_GetUnifiedDiffString _) as [diffstr [e|]].
Qed.

Lemma read_file_contents (fs : gmap string node) (p data : string) :
  read_file fs p = (data, None) → fs !! p = Some (File data).
Proof.
  unfold read_file, resolve. destruct (walk fs (ancestors p)); [done|].
  unfold node_at. case_bool_decide; [done|].
  destruct (fs !! p) as [[d|]|]; [|done..]. by intros [= ->].
Qed.

(** X11. Without the flag, [Compare] returns only when a candidate exists
    and the first one that exists, in root order, is a regular file; what
    it returns is the empty string exactly when that file holds [actual].
    So the empty string is returned only for a golden file that holds
    [actual]. *)
Theorem Compare_read_returns (actual goldenFile out : string) (w : World) :
  updateGolden w = false →
  (Compare actual goldenFile w).1 = Returned out →
  ∃ i p expected,
    first_existing w goldenFile i p ∧
    files w !! p = Some (File expected) ∧
    (out = "" ↔ expected = actual).
Proof.
  intros Hupdate. rewrite (Compare_read _ _ _ Hupdate).
  pose proof (getFullPathForRead_world w goldenFile) as (Hf & _).
  pose proof (getFullPathForRead_is_first w goldenFile) as Hfirst.
  destruct (getFullPathForRead goldenFile w) as [[p [e|]] w1]; [done|].
  cbn [fst snd] in *. destruct (Hfirst p eq_refl) as [i Hi].
  rewrite Hf.
  destruct (read_file (files w) p) as [expected [e|]] eqn:Hread; [done|].
  apply read_file_contents in Hread.
  destruct (String.eqb_spec expected actual) as [->|Hne].
  - intros [= <-]. by exists i, p, actual.
  - destruct (difflib_GetUnifiedDiffString _) as [diffstr [e|]]; [done|].
    intros [= <-]. exists i, p, expected. split; [done|]. split; [done|].
    split; [done|]. by intros ->.
Qed.

(** X12. [enableUpdateGoldenForTest] sets GOPATH to the directory given
    and sets the flag, so that a [Compare] after it writes; the function
    it returns puts both globals back to what they were before, also
    after such a [Compare], and touches nothing else. *)
Theorem enableUpdateGoldenForTest_scope (tmpdir actual goldenFile : string)
    (w : World) :
  let '(restoreFunc, w1) := enableUpdateGoldenForTest tmpdir w in
  let '(out, w2) := Compare actual goldenFile w1 in
  let '(_, w3) := restoreFunc w2 in
  (GOPATH w1 = tmpdir ∧ updateGolden w1 = true ∧
   files w1 = files w ∧ trace w1 = trace w) ∧
  (GOPATH w2 = tmpdir ∧ updateGolden w2 = true) ∧
  (GOPATH w3 = GOPATH w ∧ updateGolden w3 = updateGolden w ∧
   files w3 = files w2 ∧ trace w3 = trace w2) ∧
  (∀ w', GOPATH (restoreFunc w').2 = GOPATH w ∧
         updateGolden (restoreFunc w').2 = updateGolden w ∧
         files (restoreFunc w').2 = files w' ∧
         trace (restoreFunc w').2 = trace w') ∧
  match out with
  | Returned s =>
      s = "" ∧ ∃ p, files w3 = <[p := File actual]> (files w)
  | Fatal _ => files w3 = files w
  end.
Proof.
  unfold enableUpdateGoldenForTest. cbv beta zeta iota.
  cbn [GOPATH updateGolden files trace].
  set (w1 := mkWorld tmpdir true (files w) (trace w)).
  destruct (Compare_update_effects actual goldenFile w1 eq_refl)
    as ((Hg & Hu) & _ & Hout).
  destruct (Compare actual goldenFile w1) as [out w2].
  cbn [fst snd GOPATH updateGolden files trace] in *.
  split; [done|]. split; [done|]. split; [done|]. split; [done|].
  destruct out as [s|msg]; [|done].
  destruct Hout as (-> & p & _ & Hfiles & _). split; [done|]. by exists p.
Qed.

(** After a write to the path the resolver for writes gave, the resolver
    gives that path again. *)
Lemma getFullPathForWrite_after_write (w w1 : World) (relPath p data : string) :
  (getFullPathForWrite relPath w).1 = (p, None) →
  write_file (files w) p data = (files w1, None) →
  GOPATH w1 = GOPATH w →
  (getFullPathForWrite relPath w1).1 = (p, None).
Proof.
  intros Hres Hwrite Hg.
  pose proof (getFullPathForWrite_sound w relPath p Hres) as Hin.
  destruct (read_after_write _ _ _ _ Hwrite) as [Hex _].
  assert (roots w1 = roots w) as Hroots by (unfold roots; by rewrite Hg).
  destruct (roots_cases w) as [Hr|[[root Hr]|Hr]].
  - unfold candidates in Hin. rewrite Hr in Hin. by apply elem_of_nil in Hin.
  - rewrite (single_root_candidate w relPath root Hr) in Hres.
    rewrite (single_root_candidate w1 relPath root) by by rewrite Hroots.
    done.
  - rewrite <-Hroots in Hr.
    destruct (getFullPathForWrite_multi w1 relPath Hr) as (m & HE & _ & _ & ->).
    rewrite (sortedKeys_one_key (existingFiles m) p); [done|].
    intros k. rewrite HE, (candidates_same_roots w w1) by done. split.
    + intros [Hk Hkex].
      by apply (written_candidate_only w relPath p k data (files w1)).
    + by intros ->.
Qed.

(** X13. With the flag, a [Compare] that has returned can be repeated: a
    second [Compare] for the same golden file, with any value, returns the
    empty string too and writes the same file, so that the file system it
    leaves is the first one with that file holding the second value. *)
Theorem Compare_update_again (V V' goldenFile out : string) (w w1 : World) :
  updateGolden w = true →
  Compare V goldenFile w = (Returned out, w1) →
  ∃ p, (getFullPathForWrite goldenFile w).1 = (p, None) ∧
       (getFullPathForWrite goldenFile w1).1 = (p, None) ∧
       (Compare V' goldenFile w1).1 = Returned "" ∧
       files (Compare V' goldenFile w1).2 = <[p := File V']> (files w).
Proof.
  intros Hupdate Hfirst.
  pose proof (Compare_update_effects V goldenFile w Hupdate)
    as ((Hg & Hu) & _ & Hout).
  rewrite Hfirst in Hg, Hu, Hout. cbn [fst snd] in *.
  destruct Hout as (-> & p & Hres & Hfiles & _).
  assert (write_file (files w) p V = (files w1, None)) as Hwrite.
  { rewrite (Compare_update _ _ _ Hupdate) in Hfirst.
    pose proof (getFullPathForWrite_world w goldenFile) as (Hfw & _).
    destruct (getFullPathForWrite goldenFile w) as [[p' [e|]] wa]; [done|].
    cbn [fst snd] in *. injection Hres as ->. rewrite Hfw in Hfirst.
    destruct (write_file (files w) p V) as [fs' [e|]]; [done|].
    by injection Hfirst as <-. }
  exists p. split; [done|].
  pose proof (getFullPathForWrite_after_write w w1 goldenFile p V Hres Hwrite Hg)
    as Hres1.
  split; [done|].
  rewrite (Compare_update V' goldenFile w1) by by rewrite Hu.
  pose proof (getFullPathForWrite_world w1 goldenFile) as (Hfw1 & _).
  destruct (getFullPathForWrite goldenFile w1) as [[p1 e1] wb].
  cbn [fst snd] in *. injection Hres1 as -> ->. rewrite Hfw1.
  apply write_file_ok in Hwrite as (Hfs & Hwalk & Hnode).
  unfold write_file. rewrite Hfs.
  rewrite (proj2 (walk_insert_file (files w) p V _ Hnode) Hwalk).
  rewrite node_at_insert_file by done. cbn [fst snd files].
  split; [done|]. apply insert_insert_eq.
Qed.

(** X14. With the flag and exactly one root, [Compare] makes one call to
    the file system, the write to the candidate of that root; it returns
    the empty string when the write succeeds, and ends the process with
    the error of the write when it fails. *)
Theorem Compare_update_single_root (actual goldenFile root : string)
    (w : World) :
  updateGolden w = true →
  roots w = [root] →
  trace (Compare actual goldenFile w).2 =
    trace w ++ [SysWriteFile (candidate goldenFile root) actual] ∧
  match (write_file (files w) (candidate goldenFile root) actual).2 with
  | None => (Compare actual goldenFile w).1 = Returned ""
  | Some e => (Compare actual goldenFile w).1 = Fatal (error_Error e)
  end.
Proof.
  intros Hupdate Hroots. rewrite (Compare_update _ _ _ Hupdate).
  rewrite (single_root_candidate w goldenFile root Hroots).
  by destruct (write_file (files w) (candidate goldenFile root) actual)
    as [fs' [e|]].
Qed.

(** X15. With the flag, the calls [Compare] makes are the calls of
    [os.Stat] of the resolver, then at most one call of
    [ioutil.WriteFile]: none when the resolver gave an error, and one, of
    [actual] to the path the resolver gave, when it gave a path. *)
Theorem Compare_update_calls (actual goldenFile : string) (w : World) :
  updateGolden w = true →
  ∃ names writes,
    trace (Compare actual goldenFile w).2
    = trace w ++ (SysStat <$> names) ++ writes ∧
    match (getFullPathForWrite goldenFile w).1 with
    | (p, None) => writes = [SysWriteFile p actual]
    | (_, Some e) =>
        writes = [] ∧
        (Compare actual goldenFile w).1 =
          Fatal ("Error while getting path for writes: " +:+ error_Error e)
    end.
Proof.
  intros Hupdate. rewrite (Compare_update _ _ _ Hupdate).
  pose proof (getFullPathForWrite_world w goldenFile)
    as (_ & _ & _ & calls & Ht & Hcalls).
  assert (∃ names, calls = SysStat <$> names) as [names ->].
  { clear Ht. induction calls as [|c calls IH]; [by exists []|].
    apply Forall_cons in Hcalls as [[name ->] Hcalls].
    destruct (IH Hcalls) as [names ->]. by exists (name :: names). }
  destruct (getFullPathForWrite goldenFile w) as [[p [e|]] w1];
    cbn [fst snd] in *.
  - exists names, []. by rewrite app_nil_r.
  - exists names, [SysWriteFile p actual].
    destruct (write_file (files w1) p actual) as [fs' [e|]];
      cbn [snd trace]; by rewrite Ht, app_assoc.
Qed.

(** X16. When two different candidates exist, [Compare] with the flag
    ends the process and writes nothing, whatever the order of the
    roots. *)
Theorem Compare_update_ambiguous (actual goldenFile p q : string) (w : World) :
  updateGolden w = true →
  p ∈ candidates w goldenFile → q ∈ candidates w goldenFile → p ≠ q →
  exists_in (files w) p → exists_in (files w) q →
  (∃ paths,
     lists_sorted (λ x, x ∈ candidates w goldenFile ∧ exists_in (files w) x)
                  paths ∧
     (Compare actual goldenFile w).1 =
       Fatal ("Error while getting path for writes: " +:+
              error_Error (AmbiguousExistingFileError
                             (strconv_Quote goldenFile) paths))) ∧
  files (Compare actual goldenFile w).2 = files w.
Proof.
  intros Hupdate Hp Hq Hne Hpex Hqex.
  assert (2 ≤ length (roots w)) as Hlen.
  { destruct (roots_cases w) as [Hr|[[root Hr]|Hr]]; [| |done].
    - unfold candidates in Hp. rewrite Hr in Hp. by apply elem_of_nil in Hp.
    - unfold candidates in Hp, Hq. rewrite Hr in Hp, Hq.
      apply list_elem_of_singleton in Hp, Hq. congruence. }
  destruct (getFullPathForWrite_multi w goldenFile Hlen)
    as (m & HE & _ & _ & Hres).
  assert (p ∈ sortedKeys (existingFiles m)) as Hpin
      by (apply sortedKeys_elem_of, HE; by split).
  assert (q ∈ sortedKeys (existingFiles m)) as Hqin
      by (apply sortedKeys_elem_of, HE; by split).
  pose proof (sortedKeys_lists (existingFiles m) _ HE) as Hlists.
  destruct (sortedKeys (existingFiles m)) as [|x [|y l]] eqn:HEs.
  - by apply elem_of_nil in Hpin.
  - apply list_elem_of_singleton in Hpin, Hqin. congruence.
  - rewrite (Compare_update _ _ _ Hupdate).
    pose proof (getFullPathForWrite_world w goldenFile) as (Hf & _).
    destruct (getFullPathForWrite goldenFile w) as [[p' e] w1].
    cbn [fst snd] in *. injection Hres as -> ->.
    split; [|done]. by exists (x :: y :: l).
Qed.

End golden.

(** ** The tests of the package, run on the model *)

(** Rows of the table of Go's own test of [path.Clean]. *)
Example test_Clean :
  path_Clean "" = "." ∧
  path_Clean "abc//def//ghi" = "abc/def/ghi" ∧
  path_Clean "/./abc/def" = "/abc/def" ∧
  path_Clean "abc/def/../ghi/../jkl" = "abc/jkl" ∧
  path_Clean "/abc/def/../../.." = "/" ∧
  path_Clean "abc/def/../../../ghi/jkl/../../../mno" = "../../mno" ∧
  path_Clean "abc/../../././../def" = "../../def".
Proof. vm_compute. repeat split. Qed.

(** Rows of [TestGetFullPath], third environment. *)
Example test_read_d :
  (getFullPathForRead "github.com/google/foobar/d.txt" (two_roots_world false)).1
  = ("/t/p1/src/github.com/google/foobar/d.txt", None).
Proof. vm_compute. reflexivity. Qed.

Example test_write_c :
  (getFullPathForWrite plain_Quote "github.com/google/foobar/c.txt"
     (two_roots_world true)).1
  = ("", Some (errorString
       "there are multiple suitable directories in the GOPATH: [/t/p1/src/github.com/google/foobar/c.txt /t/p2/src/github.com/google/foobar/c.txt]")).
Proof. vm_compute. reflexivity. Qed.

Example test_write_nosuchdir :
  (getFullPathForWrite plain_Quote "github.com/google/nosuchdir/a.txt"
     (two_roots_world true)).1
  = ("", Some (errorString
       "none of these directories in the GOPATH exist: [/t/p1/src/github.com/google/nosuchdir /t/p2/src/github.com/google/nosuchdir]")).
Proof. vm_compute. reflexivity. Qed.

Example test_write_baz :
  (getFullPathForWrite plain_Quote "github.com/google/baz/a.txt"
     (two_roots_world true)).1
  = ("/t/p1/src/github.com/google/baz/a.txt", None).
Proof. vm_compute. reflexivity. Qed.

(** [TestCompareEquals] *)
Example test_compare_equals :
  (Compare plain_Quote labels_diff haiku
     "github.com/google/golden/testdata/haiku.txt.golden" (haiku_world false)).1
  = Returned "".
Proof. vm_compute. reflexivity. Qed.

(** ** The statements at inputs of the tests *)

Lemma getFullPathForWrite_decision_order_witness :
  ∃ existing withDir parents : list string,
    lists_sorted (λ x, x ∈ candidates (two_roots_world true)
                             "github.com/google/foobar/d.txt" ∧
                       exists_in two_roots_fs x) existing ∧
    lists_sorted (λ x, x ∈ candidates (two_roots_world true)
                             "github.com/google/foobar/d.txt" ∧
                       exists_in two_roots_fs (filepath_Dir x)) withDir ∧
    lists_sorted (λ d, ∃ x, x ∈ candidates (two_roots_world true)
                                  "github.com/google/foobar/d.txt" ∧
                            d = filepath_Dir x) parents ∧
    (getFullPathForWrite plain_Quote "github.com/google/foobar/d.txt"
       (two_roots_world true)).1 =
      match existing with
      | _ :: _ :: _ =>
          ("", Some (AmbiguousExistingFileError
                       (strconv_Quote plain_Quote "github.com/google/foobar/d.txt")
                       existing))
      | [p] => (p, None)
      | [] =>
          match withDir with
          | _ :: _ :: _ => ("", Some (AmbiguousDirectoryError withDir))
          | [p] => (p, None)
          | [] => ("", Some (NoSuitableDirectoryError parents))
          end
      end.
Proof.
  apply (getFullPathForWrite_decision_order plain_Quote (two_roots_world true)
           "github.com/google/foobar/d.txt").
  vm_compute. lia.
Defined.

Lemma getFullPathForRead_first_match_witness :
  (getFullPathForRead "github.com/google/foobar/b.txt" (two_roots_world false)).1
  = ("/t/p2/src/github.com/google/foobar/b.txt", None).
Proof.
  apply (proj1 (getFullPathForRead_first_match (two_roots_world false)
                  "github.com/google/foobar/b.txt") 1).
  split; [vm_compute; reflexivity|]. split; [vm_compute; reflexivity|].
  intros [|j] q Hj; [|lia]. vm_compute. intros [= <-]. discriminate.
Defined.

Lemma Compare_read_mode_witness :
  ((Compare plain_Quote labels_diff haiku_twenty haiku_golden
      (haiku_world false)).1 = Returned "" ↔ haiku = haiku_twenty) ∧
  (Compare plain_Quote labels_diff haiku_twenty haiku_golden
     (haiku_world false)).1 =
    Returned (report_header +:+ str1 newline +:+
              "--- github.com/google/golden/testdata/haiku.txt.golden"
              +:+ str1 newline +:+
              "+++ github.com/google/golden/testdata/haiku.txt.actual"
              +:+ str1 newline).
Proof.
  destruct (Compare_read_mode plain_Quote labels_diff haiku_twenty haiku_golden
              (haiku_world false)
              (getFullPathForRead haiku_golden (haiku_world false)).2
              "/go/src/github.com/google/golden/testdata/haiku.txt.golden"
              haiku)
    as (Hiff & Hdiff & _); [reflexivity|vm_compute; reflexivity..|].
  split; [exact Hiff|].
  destruct Hdiff as (toFile & Hgolden & _ & Hreturn); [by vm_compute|].
  apply Hreturn.
  by rewrite (Hgolden "github.com/google/golden/testdata/haiku.txt" eq_refl).
Defined.

Lemma Compare_update_overwrites_witness :
  (Compare plain_Quote labels_diff new_contents new_golden (one_root_world true)).1
    = Returned "" ∧
  files (Compare plain_Quote labels_diff new_contents new_golden
           (one_root_world true)).2 =
    <["/t/p1/src/github.com/google/foobar/new.txt" := File new_contents]>
      one_root_fs.
Proof.
  destruct (Compare_update_overwrites plain_Quote labels_diff
              new_contents new_golden (one_root_world true)
              (getFullPathForWrite plain_Quote new_golden (one_root_world true)).2
              (ioutil_WriteFile "/t/p1/src/github.com/google/foobar/new.txt"
                 new_contents
                 (getFullPathForWrite plain_Quote new_golden
                    (one_root_world true)).2).2
              "/t/p1/src/github.com/google/foobar/new.txt")
    as (Hout & Hfiles & _); [reflexivity|vm_compute; reflexivity..|].
  rewrite Hout. split; [reflexivity|exact Hfiles].
Defined.

Lemma Compare_write_then_read_witness :
  (Compare plain_Quote labels_diff new_contents new_golden
     (mkWorld "/t/p1" false
        (files (Compare plain_Quote labels_diff new_contents new_golden
                  (one_root_world true)).2) [])).1 = Returned "".
Proof.
  apply (Compare_write_then_read plain_Quote labels_diff new_contents new_golden
           (one_root_world true)
           (Compare plain_Quote labels_diff new_contents new_golden
              (one_root_world true)).2
           _ "");
    [reflexivity|vm_compute; reflexivity|reflexivity..].
Defined.

Lemma getFullPathForWrite_single_root_witness :
  getFullPathForWrite plain_Quote "github.com/google/newdir/new.txt"
    (one_root_world true)
  = ((candidate "github.com/google/newdir/new.txt" "/t/p1", None),
     one_root_world true).
Proof.
  apply (getFullPathForWrite_single_root plain_Quote (one_root_world true)
           "github.com/google/newdir/new.txt" "/t/p1").
  vm_compute. reflexivity.
Defined.

Lemma empty_roots_config_error_witness :
  getFullPathForRead "github.com/google/foobar/hi.txt" (no_root_world false)
    = (("", Some ConfigError), no_root_world false) ∧
  getFullPathForWrite plain_Quote "github.com/google/foobar/hi.txt"
    (no_root_world false)
    = (("", Some ConfigError), no_root_world false).
Proof.
  apply (empty_roots_config_error plain_Quote (no_root_world false)
           "github.com/google/foobar/hi.txt").
  vm_compute. reflexivity.
Defined.

(** C8 as the specification states it fails in this world: the root list
    is not empty and the one candidate does not exist, but the error is
    that of [os.Stat], "not a directory", and not the not-found error. *)
Lemma getFullPathForRead_not_found_counterexample :
  roots through_file_world ≠ [] ∧
  (∀ q, q ∈ candidates through_file_world through_file_golden →
        ¬ exists_in (files through_file_world) q) ∧
  files through_file_world
    !! "/t/p1/src/github.com/google/foobar/a.txt/haiku.txt.golden" = None ∧
  (getFullPathForRead through_file_golden through_file_world).1 =
    ("", Some (PathError "stat"
                 "/t/p1/src/github.com/google/foobar/a.txt/haiku.txt.golden"
                 ENOTDIR)) ∧
  (getFullPathForRead through_file_golden through_file_world).1 ≠
    ("", Some (NotFoundError through_file_golden)).
Proof.
  split; [by vm_compute|]. split; [|split; [|split]].
  - intros q Hq. vm_compute in Hq.
    apply list_elem_of_singleton in Hq as ->. by vm_compute.
  - vm_compute. reflexivity.
  - vm_compute. reflexivity.
  - by vm_compute.
Qed.

Lemma getFullPathForRead_no_candidate_witness :
  ∃ q e, last (candidates (one_root_world false)
                 "github.com/google/foobar/nosuchfile.txt") = Some q ∧
         stat one_root_fs q = Some e ∧
         (getFullPathForRead "github.com/google/foobar/nosuchfile.txt"
            (one_root_world false)).1 =
           ("", Some (if os_IsNotExist (Some e)
                      then NotFoundError "github.com/google/foobar/nosuchfile.txt"
                      else e)).
Proof.
  apply (getFullPathForRead_no_candidate (one_root_world false)
           "github.com/google/foobar/nosuchfile.txt").
  - by vm_compute.
  - intros q Hq. vm_compute in Hq.
    apply list_elem_of_singleton in Hq as ->. by vm_compute.
Defined.



Lemma resolved_path_is_candidate_witness :
  ∃ root, root ∈ filepath_SplitList "/t/p1:/t/p2" ∧
          "/t/p2/src/github.com/google/bar/a.txt" =
            path_Join [root; "src"; "github.com/google/bar/a.txt"].
Proof.
  apply (resolved_path_is_candidate plain_Quote (two_roots_world true)
           "github.com/google/bar/a.txt").
  right. vm_compute. reflexivity.
Defined.

(** ** The further properties at inputs of the tests *)

Lemma sortedKeys_sorted_keys_witness :
  ["a"; "b"; "c"] = sortedKeys test_keys ∧
  NoDup (sortedKeys test_keys) ∧
  (∀ k, k ∈ sortedKeys test_keys ↔ is_Some (test_keys !! k)) ∧
  length (sortedKeys test_keys) = size test_keys.
Proof.
  apply (sortedKeys_sorted_keys test_keys ["a"; "b"; "c"]).
  - apply (bool_decide_unpack _). vm_compute. reflexivity.
  - apply (bool_decide_unpack _). vm_compute. reflexivity.
Defined.

Lemma getFullPathForRead_calls_witness :
  trace (getFullPathForRead "github.com/google/foobar/b.txt"
           (two_roots_world false)).2 =
    [] ++ (SysStat <$> take 2 (candidates (two_roots_world false)
                                 "github.com/google/foobar/b.txt")).
Proof.
  apply (proj1 (getFullPathForRead_calls (two_roots_world false)
                  "github.com/google/foobar/b.txt") 1
               "/t/p2/src/github.com/google/foobar/b.txt").
  split; [vm_compute; reflexivity|]. split; [vm_compute; reflexivity|].
  intros [|j] q Hj Hq; [|lia]. vm_compute in Hq. injection Hq as <-.
  vm_compute. discriminate.
Defined.

Lemma getFullPathForWrite_calls_witness :
  trace (getFullPathForWrite plain_Quote "github.com/google/foobar/d.txt"
           (two_roots_world true)).2 =
    [] ++ flat_map
            (λ root,
               [SysStat (candidate "github.com/google/foobar/d.txt" root);
                SysStat (filepath_Dir
                           (candidate "github.com/google/foobar/d.txt" root))])
            (roots (two_roots_world true)).
Proof.
  apply (getFullPathForWrite_calls plain_Quote (two_roots_world true)
           "github.com/google/foobar/d.txt").
  vm_compute. lia.
Defined.

Lemma resolvers_agree_witness :
  (getFullPathForRead "github.com/google/foobar/a.txt" (two_roots_world true)).1
    = ("/t/p1/src/github.com/google/foobar/a.txt", None) ∧
  (getFullPathForWrite plain_Quote "github.com/google/foobar/a.txt"
     (two_roots_world true)).1
    = ("/t/p1/src/github.com/google/foobar/a.txt", None).
Proof.
  apply (proj2 (resolvers_agree plain_Quote (two_roots_world true)
                  "github.com/google/foobar/a.txt") 0).
  - split; [vm_compute; reflexivity|]. split; [vm_compute; reflexivity|].
    intros j q Hj. lia.
  - intros q Hq Hex. vm_compute in Hq.
    apply elem_of_cons in Hq as [->|Hq]; [reflexivity|].
    apply list_elem_of_singleton in Hq as ->. vm_compute in Hex. discriminate.
Defined.

Lemma getFullPathForWrite_path_writable_witness :
  exists_in two_roots_fs "/t/p1/src/github.com/google/baz/a.txt" ∨
  (exists_in two_roots_fs
     (filepath_Dir "/t/p1/src/github.com/google/baz/a.txt") ∧
   ∀ q, q ∈ candidates (two_roots_world true) "github.com/google/baz/a.txt" →
        ¬ exists_in two_roots_fs q).
Proof.
  apply (getFullPathForWrite_path_writable plain_Quote (two_roots_world true)
           "github.com/google/baz/a.txt").
  - vm_compute. lia.
  - vm_compute. reflexivity.
Defined.

Lemma getFullPathForWrite_root_order_witness :
  (getFullPathForWrite plain_Quote "github.com/google/foobar/c.txt"
     (two_roots_swapped_world true)).1 =
  (getFullPathForWrite plain_Quote "github.com/google/foobar/c.txt"
     (two_roots_world true)).1.
Proof.
  apply (getFullPathForWrite_root_order plain_Quote).
  - reflexivity.
  - intros root.
    assert (roots (two_roots_swapped_world true) = ["/t/p2"; "/t/p1"]) as ->
        by (vm_compute; reflexivity).
    assert (roots (two_roots_world true) = ["/t/p1"; "/t/p2"]) as ->
        by (vm_compute; reflexivity).
    rewrite !elem_of_cons. tauto.
  - vm_compute. lia.
  - vm_compute. lia.
Defined.

Lemma getFullPathForWrite_plain_GOPATH_witness :
  getFullPathForWrite plain_Quote "github.com/google/newdir/new.txt"
    (one_root_world true)
  = ((path_Join ["/t/p1"; "src"; "github.com/google/newdir/new.txt"], None),
     one_root_world true).
Proof.
  apply (getFullPathForWrite_plain_GOPATH plain_Quote (one_root_world true)
           "github.com/google/newdir/new.txt").
  - vm_compute. discriminate.
  - apply (bool_decide_unpack _). vm_compute. reflexivity.
Defined.

Lemma Compare_read_only_witness :
  files (Compare plain_Quote labels_diff haiku_twenty haiku_golden
           (haiku_world false)).2 = files (haiku_world false).
Proof.
  assert (updateGolden (haiku_world false) = false) as Hupdate by reflexivity.
  destruct (Compare_read_only plain_Quote labels_diff haiku_twenty haiku_golden
              (haiku_world false) Hupdate) as [Hfiles _].
  exact Hfiles.
Defined.

Lemma Compare_read_returns_witness :
  ∃ i p expected,
    first_existing (haiku_world false) haiku_golden i p ∧
    files (haiku_world false) !! p = Some (File expected) ∧
    ("" = "" ↔ expected = haiku).
Proof.
  apply (Compare_read_returns plain_Quote labels_diff haiku haiku_golden ""
           (haiku_world false)).
  - reflexivity.
  - vm_compute. reflexivity.
Defined.

Lemma Compare_update_again_witness :
  ∃ p, (getFullPathForWrite plain_Quote new_golden (one_root_world true)).1
         = (p, None) ∧
       (getFullPathForWrite plain_Quote new_golden
          (Compare plain_Quote labels_diff new_contents new_golden
             (one_root_world true)).2).1 = (p, None) ∧
       (Compare plain_Quote labels_diff haiku new_golden
          (Compare plain_Quote labels_diff new_contents new_golden
             (one_root_world true)).2).1 = Returned "" ∧
       files (Compare plain_Quote labels_diff haiku new_golden
                (Compare plain_Quote labels_diff new_contents new_golden
                   (one_root_world true)).2).2
         = <[p := File haiku]> (files (one_root_world true)).
Proof.
  apply (Compare_update_again plain_Quote labels_diff new_contents haiku
           new_golden "" (one_root_world true)).
  - reflexivity.
  - vm_compute. reflexivity.
Defined.

Lemma Compare_update_single_root_witness :
  trace (Compare plain_Quote labels_diff new_contents new_golden
           (one_root_world true)).2 =
    trace (one_root_world true)
    ++ [SysWriteFile (candidate new_golden "/t/p1") new_contents].
Proof.
  assert (updateGolden (one_root_world true) = true) as Hupdate
      by reflexivity.
  assert (roots (one_root_world true) = ["/t/p1"]) as Hroots
      by (vm_compute; reflexivity).
  destruct (Compare_update_single_root plain_Quote labels_diff new_contents
              new_golden "/t/p1" (one_root_world true) Hupdate Hroots)
    as [Htrace _].
  exact Htrace.
Defined.

Lemma Compare_update_calls_witness :
  ∃ names writes,
    trace (Compare plain_Quote labels_diff new_contents
             "github.com/google/baz/a.txt" (two_roots_world true)).2
    = trace (two_roots_world true) ++ (SysStat <$> names) ++ writes ∧
    match (getFullPathForWrite plain_Quote "github.com/google/baz/a.txt"
             (two_roots_world true)).1 with
    | (p, None) => writes = [SysWriteFile p new_contents]
    | (_, Some e) =>
        writes = [] ∧
        (Compare plain_Quote labels_diff new_contents
           "github.com/google/baz/a.txt" (two_roots_world true)).1 =
          Fatal ("Error while getting path for writes: " +:+ error_Error e)
    end.
Proof.
  assert (updateGolden (two_roots_world true) = true) as Hupdate
      by reflexivity.
  exact (Compare_update_calls plain_Quote labels_diff new_contents
           "github.com/google/baz/a.txt" (two_roots_world true) Hupdate).
Defined.

Lemma Compare_update_ambiguous_witness :
  files (Compare plain_Quote labels_diff new_contents
           "github.com/google/foobar/d.txt" (two_roots_world true)).2
  = files (two_roots_world true).
Proof.
  assert (updateGolden (two_roots_world true) = true) as Hupdate
      by reflexivity.
  assert ("/t/p1/src/github.com/google/foobar/d.txt"
          ∈ candidates (two_roots_world true) "github.com/google/foobar/d.txt")
    as Hp by (apply (bool_decide_unpack _); vm_compute; reflexivity).
  assert ("/t/p2/src/github.com/google/foobar/d.txt"
          ∈ candidates (two_roots_world true) "github.com/google/foobar/d.txt")
    as Hq by (apply (bool_decide_unpack _); vm_compute; reflexivity).
  assert ("/t/p1/src/github.com/google/foobar/d.txt"
          ≠ "/t/p2/src/github.com/google/foobar/d.txt") as Hne
      by discriminate.
  assert (exists_in (files (two_roots_world true))
            "/t/p1/src/github.com/google/foobar/d.txt") as Hpex
      by (vm_compute; reflexivity).
  assert (exists_in (files (two_roots_world true))
            "/t/p2/src/github.com/google/foobar/d.txt") as Hqex
      by (vm_compute; reflexivity).
  destruct (Compare_update_ambiguous plain_Quote labels_diff new_contents
              "github.com/google/foobar/d.txt" _ _ (two_roots_world true)
              Hupdate Hp Hq Hne Hpex Hqex) as [_ Hfiles].
  exact Hfiles.
Defined.
